(** * Lean.Server.InfoUtils: queries over the elaboration info tree

    A shallow embedding of the compiled module
    [src/stage0/stdlib/Lean/Server/InfoUtils.c] (the C emitted by the Lean 4
    compiler for [Lean.Server.InfoUtils]) and the properties of its search
    functions: [smallestNode?], [smallestNodes], [smallestInfo?],
    [hoverableInfoAt?], [smallestTacticStates] and [goalsAt?].

    Conventions of the embedding.
    - Lean's [Nat] is [nat] ([lean_nat_sub] is truncated subtraction,
      [lean_nat_dec_lt]/[lean_nat_dec_le] are [Nat.ltb]/[Nat.leb]).
    - Lean's [Option]/[List]/pairs are [option]/[list]/[prod]; constructor
      tags in the C text are given next to every [match].
    - A Lean [Array] is the list of its elements.
    - Reference counting ([lean_inc], [lean_dec], the [lean_is_exclusive]
      duplicated branches) has no functional content and is erased: both
      branches of every exclusivity test build the same value.
    - Functions keep the names of their C symbols without the [l_] prefix;
      imported generic helpers ([Array.foldlMUnsafe], [Std.PersistentArray.push],
      ...) go by the name of the Lean function.
    - The persistent array of a node's children appears in two forms: as the
      sequence of its elements, on which the searches are stated, and in its
      trie layout (module [Trie]), on which this module's copies of [mapM],
      [foldlM] and [get!] are embedded; the last part of the development
      shows that [smallestNode?] over the trie agrees with [smallestNode?]
      over the sequence. *)

From Stdlib Require Import String List Arith Lia Bool Permutation NArith.
Import ListNotations.

Set Implicit Arguments.

(* ================================================================== *)
(** * Runtime primitives used by the generated code *)
(* ================================================================== *)

Definition Array (A : Type) : Type := list A.

Definition lean_array_get_size {A} (a : Array A) : nat := length a.

(** [lean_array_get def a i]: the element at [i], the supplied default
    when [i] is out of range. *)
Definition lean_array_get {A} (def : A) (a : Array A) (i : nat) : A :=
  nth i a def.

(** [lean_array_fget a i] performs no bound check; every use in this module
    sits under a test that [i] is in range, where it agrees with
    [lean_array_get]. *)
Definition lean_array_fget {A} (def : A) (a : Array A) (i : nat) : A :=
  nth i a def.

Definition lean_array_push {A} (a : Array A) (x : A) : Array A := a ++ [x].

Fixpoint lean_array_set {A} (a : Array A) (i : nat) (x : A) : Array A :=
  match a, i with
  | [], _ => []
  | _ :: r, 0 => x :: r
  | y :: r, S k => y :: lean_array_set r k x
  end.

(** [lean_array_swap a i j] exchanges the two cells; the array comes back
    unchanged when either index is out of range. *)
Definition lean_array_swap {A} (a : Array A) (i j : nat) : Array A :=
  match nth_error a i, nth_error a j with
  | Some x, Some y => lean_array_set (lean_array_set a i y) j x
  | _, _ => a
  end.

(** [lean_panic_fn def msg]: the runtime reports [msg] and the computation
    goes on with [def]. *)
Definition lean_panic_fn {A} (def : A) (msg : string) : A := def.

(** [List.redLength] followed by [List.toArrayAux l (mkEmpty n)]: the array
    holding the elements of [l] in order. *)
Definition List_toArrayAux {A} (l : list A) (acc : Array A) : Array A :=
  fold_left (@lean_array_push A) l acc.

Definition List_join {A} (l : list (list A)) : list A := concat l.

Definition List_isEmpty {A} (l : list A) : bool :=
  match l with [] => true | _ :: _ => false end.

(** [Array.foldlMUnsafe f init a start stop] at the identity monad: the
    fold over the cells [start .. stop-1], [init] when the range is empty
    or [stop] exceeds the size. *)
Definition Array_foldlMUnsafe {A B} (f : B -> A -> B) (init : B)
    (a : Array A) (start stop : nat) : B :=
  if start <? stop then
    if stop <=? lean_array_get_size a
    then fold_left f (firstn (stop - start) (skipn start a)) init
    else init
  else init.

(** [Array.anyMUnsafe p a start stop] at the identity monad. *)
Definition Array_anyMUnsafe {A} (p : A -> bool) (a : Array A)
    (start stop : nat) : bool :=
  if start <? stop then
    if stop <=? lean_array_get_size a
    then existsb p (firstn (stop - start) (skipn start a))
    else false
  else false.

(** [Array.findIdx?.loop a p i j]: [i] cells remain, [j] is the next one. *)
Fixpoint Array_findIdx_x3f_loop {A} (def : A) (a : Array A) (p : A -> bool)
    (i j : nat) : option nat :=
  match i with
  | 0 => None
  | S i' =>
      if j <? lean_array_get_size a then
        if p (lean_array_fget def a j) then Some j
        else Array_findIdx_x3f_loop def a p i' (j + 1)
      else None
  end.

(* ------------------------------------------------------------------ *)
(** ** Std.PersistentArray

    The persistent array ([Std.Data.PersistentArray]) is a trie of 32-ary
    blocks plus a tail block.  This module holds compiler-made copies of
    [mapM], [foldlM] and [get!], which walk the root and then the tail, that
    is, the elements in index order; [push], [isEmpty], [toList] and
    [empty] are imported.  The container is represented by the sequence of
    its elements in index order. *)

Definition PersistentArray (A : Type) : Type := list A.

Definition Std_PersistentArray_empty {A} : PersistentArray A := [].

Definition Std_PersistentArray_push {A} (t : PersistentArray A) (x : A)
  : PersistentArray A := t ++ [x].

Definition Std_PersistentArray_isEmpty {A} (t : PersistentArray A) : bool :=
  match t with [] => true | _ :: _ => false end.

Definition Std_PersistentArray_toList {A} (t : PersistentArray A) : list A := t.

(** [Std.PersistentArray.mapM] at the identity monad (spec__1 .. spec__5). *)
Definition Std_PersistentArray_mapM {A B} (f : A -> B) (t : PersistentArray A)
  : PersistentArray B := map f t.

(** [Std.PersistentArray.foldlM f t init start] at the identity monad
    (spec__6 .. spec__12): the fold over the elements from index [start]. *)
Definition Std_PersistentArray_foldlM {A B} (f : B -> A -> B)
    (t : PersistentArray A) (init : B) (start : nat) : B :=
  fold_left f (skipn start t) init.

(** [Std.PersistentArray.get!] (spec__13, spec__14); [def] is the
    [Inhabited] default handed to [lean_array_get]. *)
Definition Std_PersistentArray_get_x21 {A} (def : A) (t : PersistentArray A)
    (i : nat) : A := nth i t def.

(* ================================================================== *)
(** * External collaborators

    Types, constants and functions that the module imports from the rest of
    Lean ([extern] declarations in the C text).  They are the parameters of
    the development. *)
(* ================================================================== *)

Class Extern : Type := {
  Syntax : Type;
  Name : Type;
  Expr : Type;
  ContextInfo : Type;
  LocalContext : Type;
  MetavarContext : Type;
  MVarId : Type;
  (** [Lean.Syntax.getPos? stx originalOnly] and
      [Lean.Syntax.getTailPos? stx originalOnly] *)
  Lean_Syntax_getPos_x3f : Syntax -> bool -> option nat;
  Lean_Syntax_getTailPos_x3f : Syntax -> bool -> option nat;
  Lean_Syntax_getKind : Syntax -> Name;
  Lean_Name_beq : Name -> Name -> bool;
  Lean_Expr_isSyntheticSorry : Expr -> bool;
  Lean_identKind : Name;
  Lean_strLitKind : Name;
  Lean_charLitKind : Name;
  Lean_numLitKind : Name;
  Lean_scientificLitKind : Name;
  Lean_nameLitKind : Name;
  Lean_fieldIdxKind : Name;
  Lean_interpolatedStrLitKind : Name;
  Lean_interpolatedStrKind : Name;
  (** [l___private_Lean_MonadEnv_0__Lean_supportedRecursors___closed__14],
      the shared array constant the allow-list is pushed onto *)
  supportedRecursors___closed__14 : Array Name;
  instInhabitedNat : nat;
  Option_get_x21___rarg___closed__4 : string;
  Lean_Elab_instInhabitedContextInfo : ContextInfo
}.

(* ================================================================== *)
(** * Data model: Info and InfoTree ([Lean.Elab.InfoTree]) *)
(* ================================================================== *)

Section DataModel.
Context `{Extern}.

(** Field order is the constructor layout read by [lean_ctor_get]. *)
Record TacticInfo : Type := mkTacticInfo {
  ti_mctxBefore : MetavarContext;      (* field 0 *)
  ti_goalsBefore : list MVarId;        (* field 1 *)
  ti_stx : Syntax;                     (* field 2 *)
  ti_mctxAfter : MetavarContext;       (* field 3 *)
  ti_goalsAfter : list MVarId          (* field 4 *)
}.

Record TermInfo : Type := mkTermInfo {
  tm_lctx : LocalContext;              (* field 0 *)
  tm_expr : Expr;                      (* field 1 *)
  tm_stx : Syntax                      (* field 2 *)
}.

Record MacroExpansionInfo : Type := mkMacroExpansionInfo {
  me_lctx : LocalContext;              (* field 0 *)
  me_before : Syntax;                  (* field 1 *)
  me_after : Syntax                    (* field 2 *)
}.

Record FieldInfo : Type := mkFieldInfo {
  fi_name : Name;                      (* field 0 *)
  fi_lctx : LocalContext;              (* field 1 *)
  fi_val : Expr;                       (* field 2 *)
  fi_stx : Syntax                      (* field 3 *)
}.

Inductive Info : Type :=
| ofTacticInfo (i : TacticInfo)                    (* tag 0 *)
| ofTermInfo (i : TermInfo)                        (* tag 1 *)
| ofMacroExpansionInfo (i : MacroExpansionInfo)    (* tag 2 *)
| ofFieldInfo (i : FieldInfo).                     (* tag 3 *)

Unset Elimination Schemes.
Inductive InfoTree : Type :=
| context (ci : ContextInfo) (t : InfoTree)                  (* tag 0 *)
| node (i : Info) (children : PersistentArray InfoTree)      (* tag 1 *)
| hole (mvarId : MVarId).                                    (* tag 2 *)
Set Elimination Schemes.

End DataModel.

Class ExternInhabited `{Extern} : Type := {
  Lean_Elab_instInhabitedTacticInfo : TacticInfo
}.

(* ================================================================== *)
(** * The functions of the module *)
(* ================================================================== *)

Section Functions.
Context `{EI : ExternInhabited}.

(** [Option.get!] at [Nat], as inlined at each use:
    [lean_panic_fn(l_instInhabitedNat, l_Option_get_x21___rarg___closed__4)]
    on [none]. *)
Definition Option_get_x21 (o : option nat) : nat :=
  match o with
  | None => lean_panic_fn instInhabitedNat Option_get_x21___rarg___closed__4
  | Some v => v
  end.

(* ------------------------------------------------------------------ *)
(** ** smallestNode? *)

(** The step of the fold over the children's results: a [none] cell is
    skipped, a [some] cell is pushed as it is. *)
Definition Std_PersistentArray_foldlMAux___at_Lean_Elab_InfoTree_smallestNode_x3f___spec__8___lambda__2
    (acc : PersistentArray (option InfoTree)) (x : option InfoTree)
  : PersistentArray (option InfoTree) :=
  match x with
  | None => acc
  | Some _ => Std_PersistentArray_push acc x
  end.

Fixpoint Lean_Elab_InfoTree_smallestNode_x3f (p : Info -> bool) (t : InfoTree)
  : option InfoTree :=
  match t with
  | context ci t' =>
      match Lean_Elab_InfoTree_smallestNode_x3f p t' with
      | None => None
      | Some r => Some (context ci r)
      end
  | node i cs =>
      let cs1 :=
        Std_PersistentArray_mapM (Lean_Elab_InfoTree_smallestNode_x3f p) cs in
      let cs2 :=
        Std_PersistentArray_foldlM
          Std_PersistentArray_foldlMAux___at_Lean_Elab_InfoTree_smallestNode_x3f___spec__8___lambda__2
          cs1 Std_PersistentArray_empty 0 in
      if Std_PersistentArray_isEmpty cs2 then
        if p i then Some t else None
      else Std_PersistentArray_get_x21 None cs2 0
  | hole _ => None
  end.

(* ------------------------------------------------------------------ *)
(** ** smallestNodes *)

(** [List.map (InfoTree.context ci)], spec__1 of [smallestNodes]. *)
Definition List_map___at_Lean_Elab_InfoTree_smallestNodes___spec__1
    (ci : ContextInfo) (l : list InfoTree) : list InfoTree :=
  map (context ci) l.

Fixpoint Lean_Elab_InfoTree_smallestNodes (p : Info -> bool) (t : InfoTree)
  : list InfoTree :=
  match t with
  | context ci t' =>
      List_map___at_Lean_Elab_InfoTree_smallestNodes___spec__1 ci
        (Lean_Elab_InfoTree_smallestNodes p t')
  | node i cs =>
      let cs1 := List_join (map (Lean_Elab_InfoTree_smallestNodes p)
                              (Std_PersistentArray_toList cs)) in
      if List_isEmpty cs1 then
        if p i then [t] else []
      else cs1
  | hole _ => []
  end.

(* ------------------------------------------------------------------ *)
(** ** Info.stx, Info.pos?, Info.tailPos? *)

Definition Lean_Elab_Info_stx (i : Info) : Syntax :=
  match i with
  | ofMacroExpansionInfo m => me_before m     (* case 2: field 1 *)
  | ofFieldInfo f => fi_stx f                 (* case 3: field 3 *)
  | ofTacticInfo t => ti_stx t                (* default: field 2 *)
  | ofTermInfo t => tm_stx t                  (* default: field 2 *)
  end.

Definition Lean_Elab_Info_pos_x3f (i : Info) : option nat :=
  Lean_Syntax_getPos_x3f (Lean_Elab_Info_stx i) true.

Definition Lean_Elab_Info_tailPos_x3f (i : Info) : option nat :=
  Lean_Syntax_getTailPos_x3f (Lean_Elab_Info_stx i) true.

(* ------------------------------------------------------------------ *)
(** ** smallestInfo? *)

Fixpoint List_filterMap___at_Lean_Elab_InfoTree_smallestInfo_x3f___spec__1
    (l : list InfoTree) : list (nat * (ContextInfo * Info)) :=
  match l with
  | [] => []
  | x :: rest =>
      match x with
      | context ci (node i _) =>
          let tp := Lean_Elab_Info_tailPos_x3f i in
          let ps := Lean_Elab_Info_pos_x3f i in
          (Option_get_x21 tp - Option_get_x21 ps, (ci, i))
            :: List_filterMap___at_Lean_Elab_InfoTree_smallestInfo_x3f___spec__1 rest
      | _ => List_filterMap___at_Lean_Elab_InfoTree_smallestInfo_x3f___spec__1 rest
      end
  end.

(** The closure handed to the fold of [Array.getMax?]: [x_1] is the best
    element so far, [x_2] the next cell. *)
Definition Array_getMax_x3f___at_Lean_Elab_InfoTree_smallestInfo_x3f___spec__2___lambda__1
    (x_1 x_2 : nat * (ContextInfo * Info)) : nat * (ContextInfo * Info) :=
  if fst x_2 <? fst x_1 then x_2 else x_1.

Definition Array_getMax_x3f___at_Lean_Elab_InfoTree_smallestInfo_x3f___spec__2
    (a : Array (nat * (ContextInfo * Info))) : option (nat * (ContextInfo * Info)) :=
  match a with
  | [] => None                                   (* 0 < size fails *)
  | a0 :: _ =>
      Some (Array_foldlMUnsafe
              Array_getMax_x3f___at_Lean_Elab_InfoTree_smallestInfo_x3f___spec__2___lambda__1
              a0 a 1 (lean_array_get_size a))
  end.

Definition Lean_Elab_InfoTree_smallestInfo_x3f (p : Info -> bool) (t : InfoTree)
  : option (ContextInfo * Info) :=
  let x_3 := Lean_Elab_InfoTree_smallestNodes p t in
  let x_4 := List_filterMap___at_Lean_Elab_InfoTree_smallestInfo_x3f___spec__1 x_3 in
  let x_7 := List_toArrayAux x_4 [] in
  match Array_getMax_x3f___at_Lean_Elab_InfoTree_smallestInfo_x3f___spec__2 x_7 with
  | None => None
  | Some x_11 => Some (snd x_11)
  end.

(* ------------------------------------------------------------------ *)
(** ** hoverableInfoAt? *)

Definition Array_contains___at_Lean_Elab_InfoTree_hoverableInfoAt_x3f___spec__1
    (a : Array Name) (k : Name) : bool :=
  Array_anyMUnsafe (Lean_Name_beq k) a 0 (lean_array_get_size a).

(** closed__1 .. closed__9: the kinds pushed one after the other. *)
Definition Lean_Elab_InfoTree_hoverableInfoAt_x3f___lambda__1___closed__9 : Array Name :=
  lean_array_push (lean_array_push (lean_array_push (lean_array_push
  (lean_array_push (lean_array_push (lean_array_push (lean_array_push
  (lean_array_push supportedRecursors___closed__14
     Lean_identKind) Lean_strLitKind) Lean_charLitKind) Lean_numLitKind)
     Lean_scientificLitKind) Lean_nameLitKind) Lean_fieldIdxKind)
     Lean_interpolatedStrLitKind) Lean_interpolatedStrKind.

Definition Lean_Elab_InfoTree_hoverableInfoAt_x3f___lambda__1
    (hoverPos : nat) (i : Info) : bool :=
  match Lean_Elab_Info_pos_x3f i with
  | None => false
  | Some pos =>
      match Lean_Elab_Info_tailPos_x3f i with
      | None => false
      | Some tailPos =>
          if pos <=? hoverPos then
            if hoverPos <? tailPos then
              match i with
              | ofTermInfo ti =>
                  if Lean_Expr_isSyntheticSorry (tm_expr ti) then false
                  else Array_contains___at_Lean_Elab_InfoTree_hoverableInfoAt_x3f___spec__1
                         Lean_Elab_InfoTree_hoverableInfoAt_x3f___lambda__1___closed__9
                         (Lean_Syntax_getKind (Lean_Elab_Info_stx i))
              | ofFieldInfo _ => true
              | _ => false
              end
            else false
          else false
      end
  end.

Definition Lean_Elab_InfoTree_hoverableInfoAt_x3f (t : InfoTree) (hoverPos : nat)
  : option (ContextInfo * Info) :=
  Lean_Elab_InfoTree_smallestInfo_x3f
    (Lean_Elab_InfoTree_hoverableInfoAt_x3f___lambda__1 hoverPos) t.

(* ------------------------------------------------------------------ *)
(** ** smallestTacticStates *)

Definition Lean_Elab_InfoTree_smallestTacticStates_tacticLeaves___lambda__1
    (i : Info) : bool :=
  match i with
  | ofTacticInfo _ =>
      match Lean_Elab_Info_pos_x3f i with
      | None => false
      | Some _ =>
          match Lean_Elab_Info_tailPos_x3f i with
          | None => false
          | Some _ => true
          end
      end
  | _ => false
  end.

Definition Lean_Elab_InfoTree_smallestTacticStates_tacticLeaves (t : InfoTree)
  : list InfoTree :=
  Lean_Elab_InfoTree_smallestNodes
    Lean_Elab_InfoTree_smallestTacticStates_tacticLeaves___lambda__1 t.

Definition TacticState : Type := (nat * (ContextInfo * TacticInfo))%type.

Fixpoint List_filterMap___at_Lean_Elab_InfoTree_smallestTacticStates___spec__1
    (l : list InfoTree) : list TacticState :=
  match l with
  | [] => []
  | x :: rest =>
      match x with
      | context ci (node (ofTacticInfo ti) _) =>
          (Option_get_x21 (Lean_Elab_Info_pos_x3f (ofTacticInfo ti)), (ci, ti))
            :: List_filterMap___at_Lean_Elab_InfoTree_smallestTacticStates___spec__1 rest
      | _ => List_filterMap___at_Lean_Elab_InfoTree_smallestTacticStates___spec__1 rest
      end
  end.

(** The [Inhabited] default of the sorted array's cells (closed__2). *)
Definition Array_qpartition_loop___at_Lean_Elab_InfoTree_smallestTacticStates___spec__4___closed__2
  : TacticState :=
  (instInhabitedNat,
   (Lean_Elab_instInhabitedContextInfo, Lean_Elab_instInhabitedTacticInfo)).

(** [Array.qpartition.loop lt hi pivot as i j].  Lean declares the loop
    [partial]; [fuel] bounds the number of iterations and [None] means that
    it ran out ([Array_qpartition_loop_terminates]: [hi - j < fuel] is
    enough). *)
Fixpoint Array_qpartition_loop___at_Lean_Elab_InfoTree_smallestTacticStates___spec__4
    (fuel : nat) (lt : TacticState -> TacticState -> bool) (hi : nat)
    (pivot : TacticState) (a : Array TacticState) (i j : nat)
  : option (nat * Array TacticState) :=
  match fuel with
  | 0 => None
  | S fuel' =>
      if j <? hi then
        if lt (lean_array_get
                 Array_qpartition_loop___at_Lean_Elab_InfoTree_smallestTacticStates___spec__4___closed__2
                 a j) pivot then
          Array_qpartition_loop___at_Lean_Elab_InfoTree_smallestTacticStates___spec__4
            fuel' lt hi pivot (lean_array_swap a i j) (i + 1) (j + 1)
        else
          Array_qpartition_loop___at_Lean_Elab_InfoTree_smallestTacticStates___spec__4
            fuel' lt hi pivot a i (j + 1)
      else Some (i, lean_array_swap a i hi)
  end.

(** [Array.qsort.sort lt as low high], with the median-of-three pivot
    selection of [Array.qpartition] inlined as in the C text (blocks
    [block_40] and [block_13]). *)
Fixpoint Array_qsort_sort___at_Lean_Elab_InfoTree_smallestTacticStates___spec__3
    (fuel : nat) (lt : TacticState -> TacticState -> bool)
    (a : Array TacticState) (low high : nat) : option (Array TacticState) :=
  match fuel with
  | 0 => None
  | S fuel' =>
      if low <? high then
        let d :=
          Array_qpartition_loop___at_Lean_Elab_InfoTree_smallestTacticStates___spec__4___closed__2 in
        let mid := (low + high) / 2 in
        let x_18 :=
          if lt (lean_array_get d a mid) (lean_array_get d a low)
          then lean_array_swap a low mid else a in
        let x_5 :=
          if lt (lean_array_get d x_18 high) (lean_array_get d x_18 low) then
            let x_31 := lean_array_swap x_18 low high in
            if lt (lean_array_get d x_31 mid) (lean_array_get d x_31 high) then
              let x_37 := lean_array_swap x_31 mid high in
              Array_qpartition_loop___at_Lean_Elab_InfoTree_smallestTacticStates___spec__4
                (S (high - low)) lt high (lean_array_get d x_37 high) x_37 low low
            else
              Array_qpartition_loop___at_Lean_Elab_InfoTree_smallestTacticStates___spec__4
                (S (high - low)) lt high (lean_array_get d x_31 high) x_31 low low
          else
            if lt (lean_array_get d x_18 mid) (lean_array_get d x_18 high) then
              let x_28 := lean_array_swap x_18 mid high in
              Array_qpartition_loop___at_Lean_Elab_InfoTree_smallestTacticStates___spec__4
                (S (high - low)) lt high (lean_array_get d x_28 high) x_28 low low
            else
              Array_qpartition_loop___at_Lean_Elab_InfoTree_smallestTacticStates___spec__4
                (S (high - low)) lt high (lean_array_get d x_18 high) x_18 low low in
        match x_5 with
        | None => None
        | Some (x_6, x_7) =>
            if high <=? x_6 then Some x_7
            else
              match Array_qsort_sort___at_Lean_Elab_InfoTree_smallestTacticStates___spec__3
                      fuel' lt x_7 low x_6 with
              | None => None
              | Some x_9 =>
                  Array_qsort_sort___at_Lean_Elab_InfoTree_smallestTacticStates___spec__3
                    fuel' lt x_9 (x_6 + 1) high
              end
        end
      else Some a
  end.

(** The sort run with the fuel that [Array_qsort_sort_terminates] shows
    sufficient; the [None] arm is never taken. *)
Definition Array_qsort___at_Lean_Elab_InfoTree_smallestTacticStates___spec__2
    (a : Array TacticState) (lt : TacticState -> TacticState -> bool)
    (low high : nat) : Array TacticState :=
  match Array_qsort_sort___at_Lean_Elab_InfoTree_smallestTacticStates___spec__3
          (S (high - low)) lt a low high with
  | Some r => r
  | None => a
  end.

Definition Lean_Elab_InfoTree_smallestTacticStates___lambda__1
    (x_1 x_2 : TacticState) : bool := fst x_1 <? fst x_2.

Definition Lean_Elab_InfoTree_smallestTacticStates (t : InfoTree)
  : Array TacticState :=
  let x_3 := Lean_Elab_InfoTree_smallestNodes
               Lean_Elab_InfoTree_smallestTacticStates_tacticLeaves___lambda__1 t in
  let x_4 := List_filterMap___at_Lean_Elab_InfoTree_smallestTacticStates___spec__1 x_3 in
  let x_7 := List_toArrayAux x_4 [] in
  let x_10 := lean_array_get_size x_7 - 1 in
  Array_qsort___at_Lean_Elab_InfoTree_smallestTacticStates___spec__2
    x_7 Lean_Elab_InfoTree_smallestTacticStates___lambda__1 0 x_10.

(* ------------------------------------------------------------------ *)
(** ** goalsAt? *)

(** The pair built by lambda__1 of [Array.mapIdxM.map] for cell [j] of
    [as_]: the cell's recorded position, and the recorded position of cell
    [j+1] of [ts] when there is one, else the tail position of the cell's
    own syntax. *)
Definition Array_mapIdxM_map___at_Lean_Elab_InfoTree_goalsAt_x3f___spec__1___lambda__1
    (as_ : Array TacticState) (j : nat) (ts : Array TacticState) : nat * nat :=
  let d :=
    Array_qpartition_loop___at_Lean_Elab_InfoTree_smallestTacticStates___spec__4___closed__2 in
  let x_8 := lean_array_fget d as_ j in
  let x_10 := j + 1 in
  let x_12 := fst x_8 in
  let x_14 := snd (snd x_8) in
  if x_10 <? lean_array_get_size ts then
    (x_12, fst (lean_array_fget d ts x_10))
  else
    (x_12, Option_get_x21 (Lean_Syntax_getTailPos_x3f (ti_stx x_14) false)).

(** [Array.mapIdxM.map i j bs]: [i] cells remain, [j] is the next index;
    lambda__1 pushes its pair on [bs] and re-enters the loop. *)
Fixpoint Array_mapIdxM_map___at_Lean_Elab_InfoTree_goalsAt_x3f___spec__1
    (ts as_ : Array TacticState) (i j : nat) (bs : Array (nat * nat))
  : Array (nat * nat) :=
  match i with
  | 0 => bs
  | S i' =>
      Array_mapIdxM_map___at_Lean_Elab_InfoTree_goalsAt_x3f___spec__1 ts as_ i' (j + 1)
        (lean_array_push bs
           (Array_mapIdxM_map___at_Lean_Elab_InfoTree_goalsAt_x3f___spec__1___lambda__1
              as_ j ts))
  end.

Definition Lean_Elab_InfoTree_goalsAt_x3f___lambda__1 (hoverPos : nat)
    (x_2 : nat * nat) : bool :=
  if fst x_2 <=? hoverPos then hoverPos <? snd x_2 else false.

Definition Lean_Elab_InfoTree_goalsAt_x3f (t : InfoTree) (hoverPos : nat)
  : option (ContextInfo * TacticInfo) :=
  let x_3 := Lean_Elab_InfoTree_smallestTacticStates t in
  let x_4 := lean_array_get_size x_3 in
  let x_7 := Array_mapIdxM_map___at_Lean_Elab_InfoTree_goalsAt_x3f___spec__1
               x_3 x_3 x_4 0 [] in
  match Array_findIdx_x3f_loop (instInhabitedNat, instInhabitedNat) x_7
          (Lean_Elab_InfoTree_goalsAt_x3f___lambda__1 hoverPos)
          (lean_array_get_size x_7) 0 with
  | None => None
  | Some x_13 =>
      Some (snd (lean_array_get
                   Array_qpartition_loop___at_Lean_Elab_InfoTree_smallestTacticStates___spec__4___closed__2
                   x_3 x_13))
  end.

End Functions.

(* ================================================================== *)
(** * Specification-side notions used to state the properties *)
(* ================================================================== *)

Section SpecNotions.
Context `{EI : ExternInhabited}.

(** The node reached by removing the [context] wrappers around a tree. *)
Fixpoint unwrap (t : InfoTree) : InfoTree :=
  match t with
  | context _ t' => unwrap t'
  | _ => t
  end.

(** The predicate [p] read on a search result: on the info of the node
    under its [context] wrappers. *)
Definition holds_on (p : Info -> bool) (t : InfoTree) : bool :=
  match unwrap t with
  | node i _ => p i
  | _ => false
  end.

(** The nodes of a tree in pre-order, leftmost child first, each carried
    under the [context] wrappers met on the way down. *)
Fixpoint preorder (t : InfoTree) : list InfoTree :=
  match t with
  | context ci t' => map (context ci) (preorder t')
  | node i cs => t :: concat (map preorder cs)
  | hole _ => []
  end.

(** The same nodes in post-order: the children's nodes, leftmost child
    first, and then the node itself. *)
Fixpoint postorder (t : InfoTree) : list InfoTree :=
  match t with
  | context ci t' => map (context ci) (postorder t')
  | node i cs => concat (map postorder cs) ++ [t]
  | hole _ => []
  end.

(** The first [Some] of a sequence of optional results. *)
Fixpoint first_some {A} (l : list (option A)) : option A :=
  match l with
  | [] => None
  | Some x :: _ => Some x
  | None :: r => first_some r
  end.

(** The candidates ranked by [smallestInfo?]: width, context and info of
    every result of [smallestNodes] that has the shape
    [context ci (node i _)]. *)
Definition Candidate : Type := (nat * (ContextInfo * Info))%type.

Definition candidates (p : Info -> bool) (t : InfoTree) : list Candidate :=
  List_filterMap___at_Lean_Elab_InfoTree_smallestInfo_x3f___spec__1
    (Lean_Elab_InfoTree_smallestNodes p t).


(** [x] occurs in [l], everything before it is strictly wider and nothing
    after it is narrower. *)
Definition first_narrowest (l : list Candidate) (x : Candidate) : Prop :=
  exists l1 l2, l = l1 ++ x :: l2 /\
                (forall y, In y l1 -> fst x < fst y) /\
                (forall y, In y l2 -> fst x <= fst y).

(** A position bound as the width computation reads it: the
    [Inhabited Nat] default stands in for a bound that is absent. *)
Definition bound_or_default (o : option nat) : nat :=
  match o with Some v => v | None => instInhabitedNat end.

(** The intervals [goalsAt?] searches, one per sorted tactic state. *)
Definition extents (ts : Array TacticState) : Array (nat * nat) :=
  Array_mapIdxM_map___at_Lean_Elab_InfoTree_goalsAt_x3f___spec__1
    ts ts (lean_array_get_size ts) 0 [].

(** [b] has the length of [a], agrees with [a] outside the cells
    [low .. high], and every property shared by the cells [low .. high] of
    [a] is shared by those of [b]. *)
Definition same_segment (low high : nat) (a b : Array TacticState) : Prop :=
  let D := Array_qpartition_loop___at_Lean_Elab_InfoTree_smallestTacticStates___spec__4___closed__2 in
  length b = length a /\
  (forall k, k < low \/ high < k -> lean_array_get D b k = lean_array_get D a k) /\
  (forall P : TacticState -> Prop,
     (forall k, low <= k <= high -> P (lean_array_get D a k)) ->
     forall k, low <= k <= high -> P (lean_array_get D b k)).

(** An array of tactic states in ascending order of recorded position. *)
Definition sorted_by_pos (ts : Array TacticState) : Prop :=
  forall k1 k2 e1 e2,
    k1 <= k2 -> nth_error ts k1 = Some e1 -> nth_error ts k2 = Some e2 ->
    fst e1 <= fst e2.

(** The end of the last interval: the tail position of the tactic's own
    syntax, asked for with [originalOnly = false]. *)
Definition end_of_last (e : TacticState) : nat :=
  Option_get_x21 (Lean_Syntax_getTailPos_x3f (ti_stx (snd (snd e))) false).

(** The intervals in closed form: cell [i] runs from the recorded position
    of leaf [i] to the recorded position of leaf [i+1], and the last cell
    from its recorded position to [end_of_last]. *)
Fixpoint pos_intervals (ts : list TacticState) : list (nat * nat) :=
  match ts with
  | [] => []
  | e :: rest =>
      (fst e, match rest with
              | [] => end_of_last e
              | e' :: _ => fst e'
              end) :: pos_intervals rest
  end.

(** Membership of an offset in a half-open interval. *)
Definition inside (hoverPos : nat) (c : nat * nat) : Prop :=
  fst c <= hoverPos < snd c.



(** The allow-list of [hoverableInfoAt?] written out. *)
Definition hoverable_kinds : list Name :=
  supportedRecursors___closed__14 ++
  [Lean_identKind; Lean_strLitKind; Lean_charLitKind; Lean_numLitKind;
   Lean_scientificLitKind; Lean_nameLitKind; Lean_fieldIdxKind;
   Lean_interpolatedStrLitKind; Lean_interpolatedStrKind].

(** The kind condition of [hoverableInfoAt?]: a term info whose expression
    is not a synthetic sorry and whose syntax kind is on the allow-list, or
    a field info. *)
Definition hoverable_kind (i : Info) : Prop :=
  match i with
  | ofTermInfo ti =>
      Lean_Expr_isSyntheticSorry (tm_expr ti) = false /\
      exists k, In k hoverable_kinds /\
                Lean_Name_beq (Lean_Syntax_getKind (tm_stx ti)) k = true
  | ofFieldInfo _ => True
  | _ => False
  end.

End SpecNotions.

(* ================================================================== *)
(** * A concrete instance of the external collaborators *)
(* ================================================================== *)

Module Model.

(** Modelled from the spec: the syntax node and its position accessors
    ([Lean.Syntax], [Lean.Syntax.getPos?], [Lean.Syntax.getTailPos?],
    [Lean.Syntax.getKind] are not part of this module).  A syntax node
    knows its kind and its own start and end offsets; each accessor takes
    the [canonical_only] flag, and either bound may be absent.  The node is
    the table of the answers the accessors give for it. *)
Record MSyntax : Type := mkMSyntax {
  m_kind : string;
  m_pos : bool -> option nat;
  m_tailPos : bool -> option nat
}.

(** Syntax with a real source origin: both accessors answer the same
    offsets whatever the flag. *)
Definition originalStx (k : string) (pos tailPos : nat) : MSyntax :=
  mkMSyntax k (fun _ => Some pos) (fun _ => Some tailPos).

(** Synthetic syntax without a real source origin: [None] under
    [canonical_only = true]. *)
Definition syntheticStx (k : string) (pos tailPos : nat) : MSyntax :=
  mkMSyntax k (fun c => if c then None else Some pos)
              (fun c => if c then None else Some tailPos).

(** Syntax that carries no position at all. *)
Definition noPosStx (k : string) : MSyntax :=
  mkMSyntax k (fun _ => None) (fun _ => None).

(** Modelled from the spec: the elaborated expression of a term info
    ([Lean.Expr] and [Lean.Expr.isSyntheticSorry] are not part of this
    module); it is either a synthetic placeholder or a named constant. *)
Inductive MExpr : Type :=
| syntheticSorry
| const (n : string).

Definition m_isSyntheticSorry (e : MExpr) : bool :=
  match e with syntheticSorry => true | const _ => false end.

#[export] Instance extern : Extern := {|
  Syntax := MSyntax;
  Name := string;
  Expr := MExpr;
  ContextInfo := nat;
  LocalContext := unit;
  MetavarContext := unit;
  MVarId := nat;
  Lean_Syntax_getPos_x3f := fun s c => m_pos s c;
  Lean_Syntax_getTailPos_x3f := fun s c => m_tailPos s c;
  Lean_Syntax_getKind := m_kind;
  Lean_Name_beq := String.eqb;
  Lean_Expr_isSyntheticSorry := m_isSyntheticSorry;
  Lean_identKind := "ident"%string;
  Lean_strLitKind := "strLit"%string;
  Lean_charLitKind := "charLit"%string;
  Lean_numLitKind := "numLit"%string;
  Lean_scientificLitKind := "scientificLit"%string;
  Lean_nameLitKind := "nameLit"%string;
  Lean_fieldIdxKind := "fieldIdx"%string;
  Lean_interpolatedStrLitKind := "interpolatedStrLitKind"%string;
  Lean_interpolatedStrKind := "interpolatedStrKind"%string;
  supportedRecursors___closed__14 := [];
  instInhabitedNat := 0;
  Option_get_x21___rarg___closed__4 := "value is none"%string;
  Lean_Elab_instInhabitedContextInfo := 0
|}.

#[export] Instance externInhabited : ExternInhabited := {|
  Lean_Elab_instInhabitedTacticInfo := mkTacticInfo tt [] (noPosStx ""%string) tt []
|}.

(** Sample infos. *)
Definition termAt (k : string) (pos tailPos : nat) : Info :=
  ofTermInfo (mkTermInfo tt (const "c"%string) (originalStx k pos tailPos)).

Definition tacticInfoAt (pos tailPos : nat) : TacticInfo :=
  mkTacticInfo tt [] (originalStx "tactic"%string pos tailPos) tt [].

Definition tacticAt (pos tailPos : nat) : Info :=
  ofTacticInfo (tacticInfoAt pos tailPos).

Definition always (_ : Info) : bool := true.

(** Sample trees. *)
Definition infoA : Info := termAt "a" 0 10.
Definition infoB : Info := termAt "b" 2 5.

(** A matching node with a matching child. *)
Definition nested_match : InfoTree := node infoA [node infoB []].

(** Two deepest matches of widths 10 and 3 under one context. *)
Definition wide_narrow : InfoTree :=
  context 3 (node (termAt "ident" 0 20) [node infoA []; node infoB []]).

(** A single node under a context wrapper. *)
Definition wrapped_leaf : InfoTree := context 1 (node infoA []).

(** A single hoverable node spanning [5,10) with a hole as only child. *)
Definition hover_info : Info := termAt "ident" 5 10.
Definition bare_node : InfoTree := node hover_info [hole 0].

(** A node whose syntax has a tail position but no start position. *)
Definition info_nopos : Info :=
  ofTermInfo (mkTermInfo tt (const "c"%string)
                (mkMSyntax "ident"%string (fun _ => None) (fun _ => Some 10))).
Definition missing_pos_tree : InfoTree := context 2 (node info_nopos []).

(** A tactic whose syntax ends at 5 for [canonical_only = true] and at 8
    otherwise (its last token is synthetic). *)
Definition ti_mixed : TacticInfo :=
  mkTacticInfo tt []
    (mkMSyntax "tactic"%string (fun _ => Some 0)
       (fun c => if c then Some 5 else Some 8)) tt [].
Definition mixed_tail_tree : InfoTree := context 1 (node (ofTacticInfo ti_mixed) []).

(** Two sibling tactic nodes with ranges [0,5) and [5,10). *)
Definition two_siblings : InfoTree :=
  context 1 (node (termAt "by" 0 10)
               [node (tacticAt 0 5) []; node (tacticAt 5 10) []]).

End Model.

(* ================================================================== *)
(** * Further notions: deepest matches, context-free trees *)
(* ================================================================== *)

Section SearchNotions.
Context `{EI : ExternInhabited}.

(** Some node of the tree satisfies [p]. *)
Definition has_match (p : Info -> bool) (t : InfoTree) : bool :=
  existsb (holds_on p) (postorder t).

(** The children of the node under the context wrappers of a result. *)
Definition children_of (t : InfoTree) : list InfoTree :=
  match unwrap t with
  | node _ cs => cs
  | _ => []
  end.

(** A deepest match: the node satisfies [p] and no node below it does. *)
Definition deepest_match (p : Info -> bool) (n : InfoTree) : bool :=
  holds_on p n && negb (existsb (has_match p) (children_of n)).

(** The tree holds no [context] wrapper. *)
Fixpoint context_free (t : InfoTree) : bool :=
  match t with
  | context _ _ => false
  | node _ cs => forallb context_free cs
  | hole _ => true
  end.

End SearchNotions.

(** Further sample inputs over the model instance. *)
Module Samples.
Import Model.

(** The hoverable node of [bare_node] under a context wrapper. *)
Definition hover_tree : InfoTree := context 4 bare_node.

(** Two tactic nodes under one context, the later one first:
    ranges [8,12) and [3,8). *)
Definition late_tactics : InfoTree :=
  context 1 (node (termAt "by" 3 12)
               [node (tacticAt 8 12) []; node (tacticAt 3 8) []]).

(** A tactic state at [pos] under context [ci]. *)
Definition stateAt (ci pos tailPos : nat) : TacticState :=
  (pos, (ci, tacticInfoAt pos tailPos)).

(** Four tactic states out of order. *)
Definition unsorted_states : Array TacticState :=
  [stateAt 0 7 9; stateAt 1 5 6; stateAt 2 1 3; stateAt 3 4 5].

(** The two sibling tactic nodes of [two_siblings], ranges [0,5) and
    [5,10), under a node without a context wrapper. *)
Definition bare_siblings : InfoTree :=
  node (termAt "by" 0 10) [node (tacticAt 0 5) []; node (tacticAt 5 10) []].

(** A tactic with range [5,10) whose syntax ends at 13 for
    [canonical_only = false]. *)
Definition ti_long_tail : TacticInfo :=
  mkTacticInfo tt []
    (mkMSyntax "tactic"%string (fun _ => Some 5)
       (fun c => if c then Some 10 else Some 13)) tt [].

(** Sibling tactic nodes with ranges [0,5) and [5,10) under a context,
    the second one being [ti_long_tail]. *)
Definition long_tail_siblings : InfoTree :=
  context 1 (node (termAt "by" 0 10)
               [node (tacticAt 0 5) []; node (ofTacticInfo ti_long_tail) []]).

End Samples.

(* ================================================================== *)
(** * The persistent array in its trie layout

    [smallestNode?] walks the children of a node with this module's
    copies of [Std.PersistentArray.mapM], [foldlM] and [get!] (spec__1 ..
    spec__14).  They are embedded here over the trie itself: a root of
    32-ary blocks, a tail block, and the [size_t] arithmetic that finds a
    cell.  Lean declares the recursive walks [partial]; they take [fuel],
    and a run that does not return -- the fuel is exhausted, or a shift by
    64 or more, which C leaves undefined -- is [None]. *)
(* ================================================================== *)

Module Trie.

(** [size_t] words of 64 bits. *)
Definition usize : Type := N.
Definition usize_size : N := 2 ^ 64.

Definition lean_usize_of_nat (n : nat) : usize := (N.of_nat n mod usize_size)%N.
Definition lean_usize_to_nat (u : usize) : nat := N.to_nat u.

(** [a - b] on [size_t] wraps around. *)
Definition usize_sub (a b : usize) : usize :=
  ((a + usize_size - b) mod usize_size)%N.

(** [a >> s] and [a << s]. *)
Definition usize_shift_right (a s : usize) : option usize :=
  if (s <? 64)%N then Some (N.shiftr a s) else None.
Definition usize_shift_left (a s : usize) : option usize :=
  if (s <? 64)%N then Some (N.shiftl a s mod usize_size)%N else None.
Definition usize_land (a b : usize) : usize := N.land a b.

Unset Elimination Schemes.
Inductive PersistentArrayNode (A : Type) : Type :=
| node (cs : Array (PersistentArrayNode A))      (* tag 0 *)
| leaf (vs : Array A).                           (* tag 1 *)
Set Elimination Schemes.

Record PersistentArray (A : Type) : Type := mkPersistentArray {
  root : PersistentArrayNode A;      (* field 0 *)
  tail : Array A;                    (* field 1 *)
  size : nat;                        (* field 2 *)
  tailOff : nat;                     (* field 3 *)
  shift : usize                      (* scalar slot 4 *)
}.

(** The loop of [Array.mapMUnsafe.map] over the cells [0 .. size-1]: each
    cell is replaced by the result of [f]; no result when a call of [f]
    gives none. *)
Fixpoint Array_mapMUnsafe_map {A B} (f : A -> option B) (a : Array A)
  : option (Array B) :=
  match a with
  | [] => Some []
  | x :: r =>
      match f x with
      | None => None
      | Some y =>
          match Array_mapMUnsafe_map f r with
          | None => None
          | Some ys => Some (y :: ys)
          end
      end
  end.

(** The loop of [Array.foldlMUnsafe.fold] over a list of cells. *)
Fixpoint Array_foldlMUnsafe_fold {A B} (f : B -> A -> option B) (l : list A)
    (b : B) : option B :=
  match l with
  | [] => Some b
  | x :: r =>
      match f b x with
      | None => None
      | Some b' => Array_foldlMUnsafe_fold f r b'
      end
  end.

(** [Array.foldlMUnsafe f init a start stop] with a step that may give no
    result: the cells [start .. stop-1], [init] when the range is empty or
    [stop] exceeds the size. *)
Definition Array_foldlMUnsafe_run {A B} (f : B -> A -> option B) (init : B)
    (a : Array A) (start stop : nat) : option B :=
  if start <? stop then
    if stop <=? lean_array_get_size a
    then Array_foldlMUnsafe_fold f (firstn (stop - start) (skipn start a)) init
    else Some init
  else Some init.

Section Walks.
Variables A B : Type.

(** spec__2, with the loops spec__3 (children) and spec__4 (cells). *)
Fixpoint Std_PersistentArray_mapMAux (f : A -> option B)
    (n : PersistentArrayNode A) : option (PersistentArrayNode B) :=
  match n with
  | node cs =>
      match Array_mapMUnsafe_map (Std_PersistentArray_mapMAux f) cs with
      | None => None
      | Some x_9 => Some (node x_9)
      end
  | leaf vs =>
      match Array_mapMUnsafe_map f vs with
      | None => None
      | Some x_25 => Some (leaf x_25)
      end
  end.

(** spec__1: the root, then the tail (loop spec__5); the other fields are
    copied. *)
Definition Std_PersistentArray_mapM (f : A -> option B) (t : PersistentArray A)
  : option (PersistentArray B) :=
  match Std_PersistentArray_mapMAux f (root t) with
  | None => None
  | Some x_6 =>
      match Array_mapMUnsafe_map f (tail t) with
      | None => None
      | Some x_11 =>
          Some (mkPersistentArray x_6 x_11 (size t) (tailOff t) (shift t))
      end
  end.

(** The step of the fold (lambda__2 in this module's copy). *)
Variable f : B -> A -> B.
(** [l_Std_PersistentArray_getAux___rarg___closed__1], the [Inhabited]
    default handed to [lean_array_get] on a block of children. *)
Variable default_node : PersistentArrayNode A.
(** The default handed to [lean_array_get] on a block of cells. *)
Variable def : A.

(** spec__8; lambda__1 is the recursive call on a child. *)
Fixpoint Std_PersistentArray_foldlMAux (fuel : nat) (n : PersistentArrayNode A)
    (acc : B) : option B :=
  match fuel with
  | 0 => None
  | S fuel' =>
      match n with
      | node cs =>
          Array_foldlMUnsafe_run
            (fun acc c => Std_PersistentArray_foldlMAux fuel' c acc)
            acc cs 0 (lean_array_get_size cs)
      | leaf vs =>
          Some (Array_foldlMUnsafe f acc vs 0 (lean_array_get_size vs))
      end
  end.

(** spec__7: the fold from index [i] on, [s] the shift of the node. *)
Fixpoint Std_PersistentArray_foldlFromMAux (fuel : nat)
    (n : PersistentArrayNode A) (i s : usize) (acc : B) : option B :=
  match fuel with
  | 0 => None
  | S fuel' =>
      match n with
      | node cs =>
          match usize_shift_right i s, usize_shift_left 1%N s with
          | Some x_6, Some x_11 =>
              let x_7 := lean_usize_to_nat x_6 in
              let x_9 := lean_array_get default_node cs x_7 in
              let x_13 := usize_land i (usize_sub x_11 1%N) in
              let x_15 := usize_sub s 5%N in
              match Std_PersistentArray_foldlFromMAux fuel' x_9 x_13 x_15 acc with
              | None => None
              | Some x_16 =>
                  Array_foldlMUnsafe_run
                    (fun acc c => Std_PersistentArray_foldlMAux fuel' c acc)
                    x_16 cs (x_7 + 1) (lean_array_get_size cs)
              end
          | _, _ => None
          end
      | leaf vs =>
          Some (Array_foldlMUnsafe f acc vs (lean_usize_to_nat i)
                  (lean_array_get_size vs))
      end
  end.

(** spec__6. *)
Definition Std_PersistentArray_foldlM (fuel : nat) (t : PersistentArray A)
    (init : B) (start : nat) : option B :=
  if start =? 0 then
    match Std_PersistentArray_foldlMAux fuel (root t) init with
    | None => None
    | Some x_22 =>
        Some (Array_foldlMUnsafe f x_22 (tail t) 0 (lean_array_get_size (tail t)))
    end
  else if tailOff t <=? start then
    Some (Array_foldlMUnsafe f init (tail t) (start - tailOff t)
            (lean_array_get_size (tail t)))
  else
    match Std_PersistentArray_foldlFromMAux fuel (root t)
            (lean_usize_of_nat start) (shift t) init with
    | None => None
    | Some x_11 =>
        Some (Array_foldlMUnsafe f x_11 (tail t) 0 (lean_array_get_size (tail t)))
    end.

(** spec__14. *)
Fixpoint Std_PersistentArray_getAux (fuel : nat) (n : PersistentArrayNode A)
    (i s : usize) : option A :=
  match fuel with
  | 0 => None
  | S fuel' =>
      match n with
      | node cs =>
          match usize_shift_right i s, usize_shift_left 1%N s with
          | Some x_5, Some x_10 =>
              let x_8 := lean_array_get default_node cs (lean_usize_to_nat x_5) in
              Std_PersistentArray_getAux fuel' x_8
                (usize_land i (usize_sub x_10 1%N)) (usize_sub s 5%N)
          | _, _ => None
          end
      | leaf vs => Some (lean_array_get def vs (lean_usize_to_nat i))
      end
  end.

(** spec__13. *)
Definition Std_PersistentArray_get_x21 (fuel : nat) (t : PersistentArray A)
    (i : nat) : option A :=
  if tailOff t <=? i then
    Some (lean_array_get def (tail t) (i - tailOff t))
  else
    Std_PersistentArray_getAux fuel (root t) (lean_usize_of_nat i) (shift t).

End Walks.

(* ------------------------------------------------------------------ *)
(** ** Notions used to state the properties of the trie *)

Section Notions.
Variable A : Type.

(** The cells below a node, left to right. *)
Fixpoint toListNode (n : PersistentArrayNode A) : list A :=
  match n with
  | node cs => concat (map toListNode cs)
  | leaf vs => vs
  end.

(** The elements in index order: the root, then the tail. *)
Definition toList (t : PersistentArray A) : list A :=
  toListNode (root t) ++ tail t.

Fixpoint height (n : PersistentArrayNode A) : nat :=
  match n with
  | node cs => S (list_max (map height cs))
  | leaf _ => 0
  end.

(** A complete subtree [h] levels above its leaves: 32 cells in every
    leaf, 32 children in every inner node. *)
Fixpoint full (h : nat) (n : PersistentArrayNode A) : bool :=
  match h, n with
  | 0, leaf vs => length vs =? 32
  | S h', node cs => (length cs =? 32) && forallb (full h') cs
  | _, _ => false
  end.

(** A radix subtree [h] levels above its leaves: at most 32 children, all
    but the last one complete. *)
Fixpoint radix (h : nat) (n : PersistentArrayNode A) : bool :=
  match h, n with
  | 0, leaf vs => length vs <=? 32
  | S h', node cs =>
      (length cs <=? 32)
      && forallb (full h') (firstn (length cs - 1) cs)
      && forallb (radix h') (skipn (length cs - 1) cs)
  | _, _ => false
  end.

(** The invariant of the container: the root is a radix tree of the
    height that [shift] announces, [tailOff] counts the cells of the root
    and fits a [size_t], [size] counts all elements. *)
Definition well_formed (t : PersistentArray A) : Prop :=
  exists h, h <= 12 /\ shift t = N.of_nat (5 * h) /\
            radix h (root t) = true /\
            tailOff t = length (toListNode (root t)) /\
            (N.of_nat (tailOff t) < usize_size)%N /\
            size t = length (toList t).

Fixpoint forallb_node (p : A -> bool) (n : PersistentArrayNode A) : bool :=
  match n with
  | node cs => forallb (forallb_node p) cs
  | leaf vs => forallb p vs
  end.

Definition forallb_trie (p : A -> bool) (t : PersistentArray A) : bool :=
  forallb_node p (root t) && forallb p (tail t).

End Notions.

(** The trie of the images of the elements, cell by cell. *)
Fixpoint map_node {A B} (g : A -> B) (n : PersistentArrayNode A)
  : PersistentArrayNode B :=
  match n with
  | node cs => node (map (map_node g) cs)
  | leaf vs => leaf (map g vs)
  end.

Definition map_trie {A B} (g : A -> B) (t : PersistentArray A)
  : PersistentArray B :=
  mkPersistentArray (map_node g (root t)) (map g (tail t))
    (size t) (tailOff t) (shift t).

(** The imported operations of the container. *)
Class ExternPersistentArray : Type := {
  Std_PersistentArray_push : forall A : Type, PersistentArray A -> A -> PersistentArray A;
  Std_PersistentArray_empty___closed__1 : forall A : Type, PersistentArray A;
  Std_PersistentArray_isEmpty : forall A : Type, PersistentArray A -> bool;
  Std_PersistentArray_getAux___rarg___closed__1 : forall A : Type, PersistentArrayNode A
}.

(** What the properties below need of the imported operations. *)
Class PersistentArrayLaws `{ExternPersistentArray} : Prop := {
  empty_toList : forall A, toList (Std_PersistentArray_empty___closed__1 A) = [];
  empty_well_formed : forall A, well_formed (Std_PersistentArray_empty___closed__1 A);
  push_toList : forall A (t : PersistentArray A) x,
      toList (Std_PersistentArray_push t x) = toList t ++ [x];
  push_well_formed : forall A (t : PersistentArray A) x,
      well_formed t -> well_formed (Std_PersistentArray_push t x);
  isEmpty_toList : forall A (t : PersistentArray A),
      well_formed t -> Std_PersistentArray_isEmpty t = List_isEmpty (toList t)
}.

End Trie.

(* ------------------------------------------------------------------ *)
(** ** The info tree over the trie, and [smallestNode?] as compiled *)

Module TrieTree.
Section Tree.
Context `{EI : ExternInhabited} `{EP : Trie.ExternPersistentArray}.

(** [InfoTree] with the children of a node in their trie. *)
Unset Elimination Schemes.
Inductive InfoTree : Type :=
| context (ci : ContextInfo) (t : InfoTree)                      (* tag 0 *)
| node (i : Info) (children : Trie.PersistentArray InfoTree)     (* tag 1 *)
| hole (mvarId : MVarId).                                        (* tag 2 *)
Set Elimination Schemes.

Definition Std_PersistentArray_foldlMAux___at_Lean_Elab_InfoTree_smallestNode_x3f___spec__8___lambda__2
    (acc : Trie.PersistentArray (option InfoTree)) (x : option InfoTree)
  : Trie.PersistentArray (option InfoTree) :=
  match x with
  | None => acc
  | Some _ => Trie.Std_PersistentArray_push acc x
  end.

Fixpoint Lean_Elab_InfoTree_smallestNode_x3f (fuel : nat) (p : Info -> bool)
    (t : InfoTree) : option (option InfoTree) :=
  match t with
  | context ci t' =>
      match Lean_Elab_InfoTree_smallestNode_x3f fuel p t' with
      | None => None
      | Some None => Some None
      | Some (Some r) => Some (Some (context ci r))
      end
  | node i cs =>
      match Trie.Std_PersistentArray_mapM
              (Lean_Elab_InfoTree_smallestNode_x3f fuel p) cs with
      | None => None
      | Some x_22 =>
          match Trie.Std_PersistentArray_foldlM
                  Std_PersistentArray_foldlMAux___at_Lean_Elab_InfoTree_smallestNode_x3f___spec__8___lambda__2
                  (Trie.Std_PersistentArray_getAux___rarg___closed__1 _)
                  fuel x_22 (Trie.Std_PersistentArray_empty___closed__1 _) 0 with
          | None => None
          | Some x_25 =>
              if Trie.Std_PersistentArray_isEmpty x_25 then
                Some (if p i then Some t else None)
              else
                Trie.Std_PersistentArray_get_x21
                  (Trie.Std_PersistentArray_getAux___rarg___closed__1 _) None
                  fuel x_25 0
          end
      end
  | hole _ => Some None
  end.

(** Every trie of the tree has a root of height below [fuel]. *)
Fixpoint heights_below (fuel : nat) (t : InfoTree) : bool :=
  match t with
  | context _ t' => heights_below fuel t'
  | node _ cs =>
      (Trie.height (Trie.root cs) <? fuel)
      && Trie.forallb_trie (heights_below fuel) cs
  | hole _ => true
  end.

End Tree.
End TrieTree.

Section TrieNotions.
Context `{EI : ExternInhabited} `{EP : Trie.ExternPersistentArray}.

(** The tree with every trie replaced by the sequence of its elements. *)
Fixpoint flatten_node (fl : TrieTree.InfoTree -> InfoTree)
    (n : Trie.PersistentArrayNode TrieTree.InfoTree) : list InfoTree :=
  match n with
  | Trie.node cs => concat (map (flatten_node fl) cs)
  | Trie.leaf vs => map fl vs
  end.

Fixpoint flatten (t : TrieTree.InfoTree) : InfoTree :=
  match t with
  | TrieTree.context ci t' => context ci (flatten t')
  | TrieTree.node i cs =>
      node i (flatten_node flatten (Trie.root cs) ++ map flatten (Trie.tail cs))
  | TrieTree.hole m => hole m
  end.

End TrieNotions.

(** A stand-in for the imported operations of the container, and sample
    tries. *)
Module TrieModel.
Import Model.

(** [push] appends to the tail block; it never moves the tail into the
    root. *)
Definition push_tail (A : Type) (t : Trie.PersistentArray A) (x : A)
  : Trie.PersistentArray A :=
  Trie.mkPersistentArray (Trie.root t) (Trie.tail t ++ [x])
    (S (Trie.size t)) (Trie.tailOff t) (Trie.shift t).

(** The empty container: an empty inner node, shift 5. *)
Definition empty_trie (A : Type) : Trie.PersistentArray A :=
  Trie.mkPersistentArray (Trie.node []) [] 0 0 5%N.

#[export] Instance externPersistentArray : Trie.ExternPersistentArray := {|
  Trie.Std_PersistentArray_push := push_tail;
  Trie.Std_PersistentArray_empty___closed__1 := empty_trie;
  Trie.Std_PersistentArray_isEmpty := fun A t => Trie.size t =? 0;
  Trie.Std_PersistentArray_getAux___rarg___closed__1 := fun A => Trie.node []
|}.

(** 37 numbers: a complete leaf and a leaf of three cells in the root, two
    cells in the tail. *)
Definition small_trie : Trie.PersistentArray nat :=
  Trie.mkPersistentArray
    (Trie.node [Trie.leaf (seq 0 32); Trie.leaf [32; 33; 34]])
    [35; 36] 37 35 5%N.

(** 1031 numbers over two levels: a complete subtree of 32 leaves, a
    subtree with one leaf of five cells, and two cells in the tail. *)
Definition deep_trie : Trie.PersistentArray nat :=
  Trie.mkPersistentArray
    (Trie.node
       [Trie.node (map (fun k => Trie.leaf (seq (32 * k) 32)) (seq 0 32));
        Trie.node [Trie.leaf (seq 1024 5)]])
    [1029; 1030] 1031 1029 10%N.

(** A node with three children, two of them in a leaf of the root. *)
Definition trie_tree : TrieTree.InfoTree :=
  TrieTree.node infoA
    (Trie.mkPersistentArray
       (Trie.node [Trie.leaf [TrieTree.hole 7;
                              TrieTree.node infoB (empty_trie _)]])
       [TrieTree.node (termAt "c" 6 8) (empty_trie _)] 3 2 5%N).

End TrieModel.

(* ================================================================== *)
(** * Facts about the runtime primitives *)
(* ================================================================== *)

Section RuntimeFacts.

Lemma List_toArrayAux_app {A} (l : list A) (acc : Array A) :
  List_toArrayAux l acc = acc ++ l.
Proof.
  unfold List_toArrayAux, lean_array_push.
  revert acc; induction l as [|x l IH]; intros acc; simpl.
  - now rewrite app_nil_r.
  - rewrite IH, <- app_assoc. reflexivity.
Qed.

Lemma List_toArrayAux_nil {A} (l : list A) : List_toArrayAux l [] = l.
Proof. apply List_toArrayAux_app. Qed.

Lemma Array_foldlMUnsafe_tail {A B} (f : B -> A -> B) (init : B) (x : A) (r : list A) :
  Array_foldlMUnsafe f init (x :: r) 1 (lean_array_get_size (x :: r))
  = fold_left f r init.
Proof.
  unfold Array_foldlMUnsafe, lean_array_get_size. simpl length.
  destruct r as [|y r]; [reflexivity|].
  replace (1 <? S (length (y :: r))) with true
    by (symmetry; apply Nat.ltb_lt; simpl; lia).
  rewrite Nat.leb_refl.
  replace (S (length (y :: r)) - 1) with (length (y :: r)) by lia.
  simpl skipn. now rewrite firstn_all.
Qed.

Lemma Array_anyMUnsafe_all {A} (p : A -> bool) (a : Array A) :
  Array_anyMUnsafe p a 0 (lean_array_get_size a) = existsb p a.
Proof.
  unfold Array_anyMUnsafe, lean_array_get_size.
  destruct a as [|x a]; [reflexivity|].
  replace (0 <? length (x :: a)) with true by reflexivity.
  rewrite Nat.leb_refl, Nat.sub_0_r. simpl skipn. now rewrite firstn_all.
Qed.

Lemma lean_array_set_length {A} (a : Array A) i x :
  length (lean_array_set a i x) = length a.
Proof.
  revert i; induction a as [|y a IH]; intros [|i]; simpl; try reflexivity.
  now rewrite IH.
Qed.

Lemma lean_array_set_nth {A} (d : A) (a : Array A) i x k :
  i < length a ->
  nth k (lean_array_set a i x) d = if k =? i then x else nth k a d.
Proof.
  revert i k; induction a as [|y a IH]; intros i k Hi; simpl in Hi; [lia|].
  destruct i as [|i], k as [|k]; simpl; try reflexivity.
  apply IH. lia.
Qed.

Lemma lean_array_swap_length {A} (a : Array A) i j :
  length (lean_array_swap a i j) = length a.
Proof.
  unfold lean_array_swap.
  destruct (nth_error a i), (nth_error a j); try reflexivity.
  now rewrite !lean_array_set_length.
Qed.

Lemma lean_array_swap_nth {A} (d : A) (a : Array A) i j k :
  i < length a -> j < length a ->
  nth k (lean_array_swap a i j) d
  = if k =? j then nth i a d else if k =? i then nth j a d else nth k a d.
Proof.
  intros Hi Hj. unfold lean_array_swap.
  rewrite (nth_error_nth' a d Hi), (nth_error_nth' a d Hj).
  rewrite lean_array_set_nth by (now rewrite lean_array_set_length).
  destruct (k =? j); [reflexivity|].
  now rewrite lean_array_set_nth.
Qed.

Lemma find_app_first {A} (f : A -> bool) (l1 l2 : list A) :
  find f (l1 ++ l2) = match find f l1 with Some x => Some x | None => find f l2 end.
Proof.
  induction l1 as [|x l1 IH]; simpl; [reflexivity|].
  destruct (f x); [reflexivity|apply IH].
Qed.

Lemma find_concat_first_some {A} (f : A -> bool) (ls : list (list A)) :
  find f (concat ls) = first_some (map (find f) ls).
Proof.
  induction ls as [|l ls IH]; simpl; [reflexivity|].
  rewrite find_app_first. destruct (find f l); [reflexivity|apply IH].
Qed.

Lemma find_split {A} (f : A -> bool) (l : list A) (x : A) :
  find f l = Some x ->
  f x = true /\ exists l1 l2, l = l1 ++ x :: l2 /\ forall y, In y l1 -> f y = false.
Proof.
  induction l as [|a l IH]; simpl; [discriminate|].
  destruct (f a) eqn:Fa.
  - intros [= ->]. split; [assumption|]. exists [], l. split; [reflexivity|].
    intros y [].
  - intros Hx. destruct (IH Hx) as [Hfx [l1 [l2 [-> Hl1]]]].
    split; [assumption|]. exists (a :: l1), l2. split; [reflexivity|].
    intros y [<-|Hy]; [assumption|now apply Hl1].
Qed.

(** The fold of [smallestNode?] keeps the [Some] cells, in order. *)
Lemma fold_left_foldlMAux_lambda__2 `{Extern} (l acc : list (option InfoTree)) :
  fold_left
    Std_PersistentArray_foldlMAux___at_Lean_Elab_InfoTree_smallestNode_x3f___spec__8___lambda__2
    l acc
  = acc ++ filter (fun x => match x with Some _ => true | None => false end) l.
Proof.
  revert acc; induction l as [|x l IH]; intros acc; simpl.
  - now rewrite app_nil_r.
  - rewrite IH. destruct x as [r|]; simpl.
    + unfold Std_PersistentArray_push. now rewrite <- app_assoc.
    + reflexivity.
Qed.

Lemma filter_some_first_some {A} (l : list (option A)) :
  match filter (fun x => match x with Some _ => true | None => false end) l with
  | [] => first_some l = None
  | x :: _ => x = first_some l /\ x <> None
  end.
Proof.
  induction l as [|[a|] l IH]; simpl.
  - reflexivity.
  - split; [reflexivity|discriminate].
  - exact IH.
Qed.

End RuntimeFacts.

(* ================================================================== *)
(** * Induction on info trees *)
(* ================================================================== *)

Lemma InfoTree_ind' `{Extern} (P : InfoTree -> Prop) :
  (forall ci t, P t -> P (context ci t)) ->
  (forall i cs, Forall P cs -> P (node i cs)) ->
  (forall m, P (hole m)) ->
  forall t, P t.
Proof.
  intros Hc Hn Hh. fix IH 1. intros [ci t|i cs|m].
  - apply Hc, IH.
  - apply Hn. induction cs as [|c cs IHcs]; constructor; [apply IH|exact IHcs].
  - apply Hh.
Qed.

(* ================================================================== *)
(** * smallestNode? *)
(* ================================================================== *)

Section SmallestNode.
Context `{EI : ExternInhabited}.

Lemma smallestNode_context (p : Info -> bool) ci t :
  Lean_Elab_InfoTree_smallestNode_x3f p (context ci t)
  = match Lean_Elab_InfoTree_smallestNode_x3f p t with
    | None => None
    | Some r => Some (context ci r)
    end.
Proof. reflexivity. Qed.

Lemma smallestNode_node (p : Info -> bool) i cs :
  Lean_Elab_InfoTree_smallestNode_x3f p (node i cs)
  = match first_some (map (Lean_Elab_InfoTree_smallestNode_x3f p) cs) with
    | Some r => Some r
    | None => if p i then Some (node i cs) else None
    end.
Proof.
  cbn [Lean_Elab_InfoTree_smallestNode_x3f].
  unfold Std_PersistentArray_mapM, Std_PersistentArray_foldlM,
    Std_PersistentArray_empty, Std_PersistentArray_get_x21.
  cbn [skipn]. rewrite fold_left_foldlMAux_lambda__2. cbn [app].
  pose proof (filter_some_first_some (map (Lean_Elab_InfoTree_smallestNode_x3f p) cs)) as F.
  destruct (filter _ (map (Lean_Elab_InfoTree_smallestNode_x3f p) cs)) as [|x r].
  - rewrite F. reflexivity.
  - destruct F as [-> Hne]. cbn.
    destruct (first_some (map (Lean_Elab_InfoTree_smallestNode_x3f p) cs));
      [reflexivity|contradiction].
Qed.

Lemma holds_on_context (p : Info -> bool) ci t :
  holds_on p (context ci t) = holds_on p t.
Proof. reflexivity. Qed.

Lemma find_holds_on_map_context (p : Info -> bool) ci (l : list InfoTree) :
  find (holds_on p) (map (context ci) l)
  = match find (holds_on p) l with
    | None => None
    | Some r => Some (context ci r)
    end.
Proof.
  induction l as [|x l IH]; simpl; [reflexivity|].
  rewrite holds_on_context. destruct (holds_on p x); [reflexivity|apply IH].
Qed.

(** [smallestNode?] is the search for the first node satisfying [p] in the
    post-order enumeration of the tree. *)
Lemma smallestNode_first_in_postorder (p : Info -> bool) (t : InfoTree) :
  Lean_Elab_InfoTree_smallestNode_x3f p t = find (holds_on p) (postorder t).
Proof.
  induction t as [ci t IH|i cs IH|m] using InfoTree_ind'.
  - rewrite smallestNode_context, IH. cbn [postorder].
    now rewrite find_holds_on_map_context.
  - rewrite smallestNode_node. cbn [postorder].
    rewrite find_app_first, find_concat_first_some, map_map.
    replace (map (fun x => find (holds_on p) (postorder x)) cs)
      with (map (Lean_Elab_InfoTree_smallestNode_x3f p) cs).
    + destruct (first_some _); [reflexivity|].
      cbn. unfold holds_on. cbn. destruct (p i); reflexivity.
    + induction IH as [|c cs Hc _ IHcs]; simpl; [reflexivity|].
      now rewrite Hc, IHcs.
  - reflexivity.
Qed.

(** C8. [smallestNode?] meets its recursive contract: on [context ci t] it
    recurses into [t], hands [None] on and rewraps [Some r] as
    [Some (context ci r)]; on [node i cs] it returns the first [Some] among
    the children's results taken in order, and when every child yields
    [None] it tests [p i], returning the whole node or [None]; on a hole it
    returns [None]. *)
Theorem C8_smallestNode_contract (p : Info -> bool) :
  (forall ci t,
     Lean_Elab_InfoTree_smallestNode_x3f p (context ci t)
     = match Lean_Elab_InfoTree_smallestNode_x3f p t with
       | None => None
       | Some r => Some (context ci r)
       end) /\
  (forall i cs,
     Lean_Elab_InfoTree_smallestNode_x3f p (node i cs)
     = match first_some (map (Lean_Elab_InfoTree_smallestNode_x3f p) cs) with
       | Some r => Some r
       | None => if p i then Some (node i cs) else None
       end) /\
  (forall m, Lean_Elab_InfoTree_smallestNode_x3f p (hole m) = None).
Proof.
  split; [|split].
  - intros; apply smallestNode_context.
  - intros; apply smallestNode_node.
  - reflexivity.
Qed.

(** C7 (amended). When [smallestNode? p t] returns [Some n], [p] holds on
    the info of [n] under its context wrappers, and no node that comes
    before [n] in the post-order (children first, leftmost first)
    enumeration of [t] satisfies [p]. *)
Theorem C7_smallestNode_first_match (p : Info -> bool) (t n : InfoTree) :
  Lean_Elab_InfoTree_smallestNode_x3f p t = Some n ->
  holds_on p n = true /\
  exists l1 l2, postorder t = l1 ++ n :: l2 /\
                forall m, In m l1 -> holds_on p m = false.
Proof.
  rewrite smallestNode_first_in_postorder. apply find_split.
Qed.

End SmallestNode.

(* ================================================================== *)
(** * smallestNodes *)
(* ================================================================== *)

Section SmallestNodes.
Context `{EI : ExternInhabited}.

Lemma smallestNodes_node (p : Info -> bool) i cs :
  Lean_Elab_InfoTree_smallestNodes p (node i cs)
  = match concat (map (Lean_Elab_InfoTree_smallestNodes p) cs) with
    | [] => if p i then [node i cs] else []
    | r => r
    end.
Proof.
  cbn [Lean_Elab_InfoTree_smallestNodes].
  unfold List_join, Std_PersistentArray_toList, List_isEmpty.
  destruct (concat _); reflexivity.
Qed.

(** C3 (amended). When [smallestNodes] passes through [context ci t] it
    searches [t] and wraps every element of the list found there in
    [context ci], as [smallestNode?] does with its single result. *)
Theorem C3_smallestNodes_rewraps (p : Info -> bool) ci (t : InfoTree) :
  Lean_Elab_InfoTree_smallestNodes p (context ci t)
  = map (context ci) (Lean_Elab_InfoTree_smallestNodes p t) /\
  (forall r, In r (Lean_Elab_InfoTree_smallestNodes p (context ci t)) ->
             exists r', r = context ci r' /\
                        In r' (Lean_Elab_InfoTree_smallestNodes p t)) /\
  Lean_Elab_InfoTree_smallestNode_x3f p (context ci t)
  = option_map (context ci) (Lean_Elab_InfoTree_smallestNode_x3f p t).
Proof.
  split; [reflexivity|split].
  - cbn [Lean_Elab_InfoTree_smallestNodes].
    unfold List_map___at_Lean_Elab_InfoTree_smallestNodes___spec__1.
    intros r Hr. apply in_map_iff in Hr. destruct Hr as [r' [<- Hr']].
    now exists r'.
  - rewrite smallestNode_context.
    destruct (Lean_Elab_InfoTree_smallestNode_x3f p t); reflexivity.
Qed.

(** Every element returned by [smallestNodes] is a node satisfying [p]
    under its context wrappers. *)
Lemma smallestNodes_holds_on (p : Info -> bool) (t : InfoTree) :
  forall r, In r (Lean_Elab_InfoTree_smallestNodes p t) -> holds_on p r = true.
Proof.
  induction t as [ci t IH|i cs IH|m] using InfoTree_ind'; intros r Hr.
  - cbn [Lean_Elab_InfoTree_smallestNodes] in Hr.
    unfold List_map___at_Lean_Elab_InfoTree_smallestNodes___spec__1 in Hr.
    apply in_map_iff in Hr. destruct Hr as [r' [<- Hr']].
    rewrite holds_on_context. now apply IH.
  - rewrite smallestNodes_node in Hr.
    assert (Hc : forall x, In x (concat (map (Lean_Elab_InfoTree_smallestNodes p) cs)) ->
                           holds_on p x = true).
    { intros x Hx. apply in_concat in Hx. destruct Hx as [l [Hl Hx]].
      apply in_map_iff in Hl. destruct Hl as [c [<- Hcin]].
      rewrite Forall_forall in IH. now apply (IH c Hcin). }
    destruct (concat (map (Lean_Elab_InfoTree_smallestNodes p) cs)) as [|y l].
    + destruct (p i) eqn:Hp; [|destruct Hr].
      destruct Hr as [<-|[]]. unfold holds_on. cbn. exact Hp.
    + now apply Hc.
  - destruct Hr.
Qed.

End SmallestNodes.

(* ================================================================== *)
(** * smallestInfo? *)
(* ================================================================== *)

Section SmallestInfo.
Context `{EI : ExternInhabited}.

Lemma first_narrowest_step (l : list Candidate) (b a : Candidate) :
  first_narrowest l b ->
  first_narrowest (l ++ [a])
    (Array_getMax_x3f___at_Lean_Elab_InfoTree_smallestInfo_x3f___spec__2___lambda__1 b a).
Proof.
  intros [l1 [l2 [-> [H1 H2]]]]. unfold Array_getMax_x3f___at_Lean_Elab_InfoTree_smallestInfo_x3f___spec__2___lambda__1.
  destruct (fst a <? fst b) eqn:Hlt.
  - apply Nat.ltb_lt in Hlt. exists (l1 ++ b :: l2), []. split; [reflexivity|]. split.
    + intros y Hy. apply in_app_or in Hy. destruct Hy as [Hy|[<-|Hy]].
      * specialize (H1 y Hy). lia.
      * exact Hlt.
      * specialize (H2 y Hy). lia.
    + intros y [].
  - apply Nat.ltb_ge in Hlt. exists l1, (l2 ++ [a]). split.
    + now rewrite <- app_assoc.
    + split; [exact H1|]. intros y Hy. apply in_app_or in Hy.
      destruct Hy as [Hy|[<-|[]]]; [now apply H2|exact Hlt].
Qed.

Lemma first_narrowest_fold (r l : list Candidate) (b : Candidate) :
  first_narrowest l b ->
  first_narrowest (l ++ r)
    (fold_left
       Array_getMax_x3f___at_Lean_Elab_InfoTree_smallestInfo_x3f___spec__2___lambda__1 r b).
Proof.
  revert l b; induction r as [|a r IH]; intros l b Hb; simpl.
  - now rewrite app_nil_r.
  - replace (l ++ a :: r) with ((l ++ [a]) ++ r) by now rewrite <- app_assoc.
    apply IH, first_narrowest_step, Hb.
Qed.

Lemma getMax_first_narrowest (a : Array Candidate) :
  match Array_getMax_x3f___at_Lean_Elab_InfoTree_smallestInfo_x3f___spec__2 a with
  | None => a = []
  | Some x => first_narrowest a x
  end.
Proof.
  destruct a as [|a0 r]; [reflexivity|].
  unfold Array_getMax_x3f___at_Lean_Elab_InfoTree_smallestInfo_x3f___spec__2.
  rewrite Array_foldlMUnsafe_tail.
  apply (@first_narrowest_fold r [a0] a0).
  exists [], []. split; [reflexivity|]. split; intros y [].
Qed.


(** C5 (amended). The filter of [smallestInfo?] keeps every search result
    of the shape [context ci (node i _)], whether or not the positions of
    [i] are defined: a missing [pos] or [tailPos] is replaced by the
    [Inhabited Nat] default before the truncated subtraction, and such a
    node is ranked and can be returned. *)
Theorem C5_width_uses_default (p : Info -> bool) ci (i : Info)
    (cs : PersistentArray InfoTree) (rest : list InfoTree) :
  List_filterMap___at_Lean_Elab_InfoTree_smallestInfo_x3f___spec__1
    (context ci (node i cs) :: rest)
  = (bound_or_default (Lean_Elab_Info_tailPos_x3f i)
     - bound_or_default (Lean_Elab_Info_pos_x3f i), (ci, i))
    :: List_filterMap___at_Lean_Elab_InfoTree_smallestInfo_x3f___spec__1 rest
  /\ (p i = true ->
      Lean_Elab_InfoTree_smallestInfo_x3f p (context ci (node i [])) = Some (ci, i)).
Proof.
  split.
  - cbn [List_filterMap___at_Lean_Elab_InfoTree_smallestInfo_x3f___spec__1].
    unfold Option_get_x21, lean_panic_fn, bound_or_default.
    destruct (Lean_Elab_Info_tailPos_x3f i), (Lean_Elab_Info_pos_x3f i); reflexivity.
  - intros Hp. unfold Lean_Elab_InfoTree_smallestInfo_x3f.
    cbn. rewrite Hp. reflexivity.
Qed.

(** A match that comes back without a context wrapper is dropped by the
    filter. *)
Lemma smallestInfo_bare_node (p : Info -> bool) (i : Info) m :
  Lean_Elab_InfoTree_smallestInfo_x3f p (node i [hole m]) = None.
Proof.
  unfold Lean_Elab_InfoTree_smallestInfo_x3f. cbn. destruct (p i); reflexivity.
Qed.

Lemma smallestInfo_wrapped_node (p : Info -> bool) ci (i : Info) m :
  p i = true ->
  Lean_Elab_InfoTree_smallestInfo_x3f p (context ci (node i [hole m])) = Some (ci, i).
Proof.
  intros Hp. unfold Lean_Elab_InfoTree_smallestInfo_x3f. cbn. rewrite Hp. reflexivity.
Qed.

(** The allow-list built by the successive pushes is [hoverable_kinds]. *)
Lemma closed__9_hoverable_kinds :
  Lean_Elab_InfoTree_hoverableInfoAt_x3f___lambda__1___closed__9 = hoverable_kinds.
Proof.
  unfold Lean_Elab_InfoTree_hoverableInfoAt_x3f___lambda__1___closed__9,
    hoverable_kinds, lean_array_push.
  repeat rewrite <- app_assoc. reflexivity.
Qed.

Lemma Array_contains_hoverable_kinds (k : Name) :
  Array_contains___at_Lean_Elab_InfoTree_hoverableInfoAt_x3f___spec__1
    Lean_Elab_InfoTree_hoverableInfoAt_x3f___lambda__1___closed__9 k = true
  <-> exists k', In k' hoverable_kinds /\ Lean_Name_beq k k' = true.
Proof.
  unfold Array_contains___at_Lean_Elab_InfoTree_hoverableInfoAt_x3f___spec__1.
  rewrite Array_anyMUnsafe_all, closed__9_hoverable_kinds. apply existsb_exists.
Qed.

(** The predicate of [hoverableInfoAt?] read as a proposition. *)
Lemma hoverable_lambda_iff (hoverPos : nat) (i : Info) :
  Lean_Elab_InfoTree_hoverableInfoAt_x3f___lambda__1 hoverPos i = true <->
  exists pos tailPos,
    Lean_Elab_Info_pos_x3f i = Some pos /\
    Lean_Elab_Info_tailPos_x3f i = Some tailPos /\
    pos <= hoverPos < tailPos /\
    hoverable_kind i.
Proof.
  unfold Lean_Elab_InfoTree_hoverableInfoAt_x3f___lambda__1.
  split.
  - destruct (Lean_Elab_Info_pos_x3f i) as [pos|]; [|discriminate].
    destruct (Lean_Elab_Info_tailPos_x3f i) as [tp|]; [|discriminate].
    destruct (pos <=? hoverPos) eqn:Hle; [|discriminate].
    destruct (hoverPos <? tp) eqn:Hlt; [|discriminate].
    apply Nat.leb_le in Hle. apply Nat.ltb_lt in Hlt.
    intros Hk. exists pos, tp. repeat split; try assumption.
    destruct i as [ti|ti|mi|fi]; try discriminate; cbn.
    + destruct (Lean_Expr_isSyntheticSorry (tm_expr ti)); [discriminate|].
      split; [reflexivity|]. now apply Array_contains_hoverable_kinds.
    + exact I.
  - intros [pos [tp [-> [-> [[Hle Hlt] Hk]]]]].
    apply Nat.leb_le in Hle. apply Nat.ltb_lt in Hlt. rewrite Hle, Hlt.
    destruct i as [ti|ti|mi|fi]; cbn in Hk; try contradiction.
    + destruct Hk as [-> Hk]. now apply Array_contains_hoverable_kinds.
    + reflexivity.
Qed.

(** C9. The predicate of [hoverableInfoAt?] is true exactly when [pos] and
    [tailPos] are both defined, [pos <= offset < tailPos], and the info is a
    term info whose expression is not a synthetic sorry and whose syntax
    kind is on the allow-list, or a field info; it is false for every kind
    of info when the offset lies outside [pos, tailPos). *)
Theorem C9_is_hoverable_characterisation (hoverPos : nat) (i : Info) :
  (Lean_Elab_InfoTree_hoverableInfoAt_x3f___lambda__1 hoverPos i = true <->
   exists pos tailPos,
     Lean_Elab_Info_pos_x3f i = Some pos /\
     Lean_Elab_Info_tailPos_x3f i = Some tailPos /\
     pos <= hoverPos < tailPos /\
     match i with
     | ofTermInfo ti =>
         Lean_Expr_isSyntheticSorry (tm_expr ti) = false /\
         exists k, In k hoverable_kinds /\
                   Lean_Name_beq (Lean_Syntax_getKind (tm_stx ti)) k = true
     | ofFieldInfo _ => True
     | ofTacticInfo _ => False
     | ofMacroExpansionInfo _ => False
     end) /\
  (forall pos tailPos,
     Lean_Elab_Info_pos_x3f i = Some pos ->
     Lean_Elab_Info_tailPos_x3f i = Some tailPos ->
     ~ (pos <= hoverPos < tailPos) ->
     Lean_Elab_InfoTree_hoverableInfoAt_x3f___lambda__1 hoverPos i = false).
Proof.
  split.
  - rewrite hoverable_lambda_iff. unfold hoverable_kind.
    destruct i; reflexivity.
  - intros pos tp Hp Ht Hout.
    destruct (Lean_Elab_InfoTree_hoverableInfoAt_x3f___lambda__1 hoverPos i) eqn:Hh;
      [|reflexivity].
    apply hoverable_lambda_iff in Hh.
    destruct Hh as [pos' [tp' [Hp' [Ht' [Hin _]]]]].
    rewrite Hp in Hp'. rewrite Ht in Ht'.
    injection Hp' as <-. injection Ht' as <-. contradiction.
Qed.

(** C4 (amended). For the tree made of a single node whose info has
    [pos = 5], [tailPos = 10] and a hoverable kind, with a hole as only
    child: the query at offset 7 returns [None] on the bare node, because
    the filter after the search keeps only the results of the shape
    [context ci (node i _)]; on the same node wrapped in [context ci] it
    returns that node's info with [ci]. *)
Theorem C4_single_node_scenario (i : Info) ci m :
  Lean_Elab_Info_pos_x3f i = Some 5 ->
  Lean_Elab_Info_tailPos_x3f i = Some 10 ->
  hoverable_kind i ->
  Lean_Elab_InfoTree_hoverableInfoAt_x3f (node i [hole m]) 7 = None /\
  Lean_Elab_InfoTree_hoverableInfoAt_x3f (context ci (node i [hole m])) 7
  = Some (ci, i).
Proof.
  intros Hp Ht Hk. unfold Lean_Elab_InfoTree_hoverableInfoAt_x3f. split.
  - apply smallestInfo_bare_node.
  - apply smallestInfo_wrapped_node. apply hoverable_lambda_iff.
    exists 5, 10. repeat split; try assumption; lia.
Qed.

End SmallestInfo.

(* ================================================================== *)
(** * smallestTacticStates: the sort returns, and sorts by position *)
(* ================================================================== *)

Section Sorting.
Context `{EI : ExternInhabited}.

Lemma Array_qpartition_loop_terminates fuel lt hi pivot a i j :
  hi - j < fuel ->
  exists i' a',
    Array_qpartition_loop___at_Lean_Elab_InfoTree_smallestTacticStates___spec__4
      fuel lt hi pivot a i j = Some (i', a') /\ i <= i'.
Proof.
  revert a i j; induction fuel as [|f IH]; intros a i j Hf; [lia|].
  cbn [Array_qpartition_loop___at_Lean_Elab_InfoTree_smallestTacticStates___spec__4].
  destruct (j <? hi) eqn:E.
  - apply Nat.ltb_lt in E. destruct (lt _ pivot).
    + destruct (IH (lean_array_swap a i j) (i + 1) (j + 1)) as [i' [a' [-> Hi]]];
        [lia|]. exists i', a'. split; [reflexivity|lia].
    + destruct (IH a i (j + 1)) as [i' [a' [-> Hi]]]; [lia|].
      exists i', a'. split; [reflexivity|lia].
  - exists i, (lean_array_swap a i hi). split; [reflexivity|lia].
Qed.

Lemma Array_qsort_sort_terminates fuel lt a low high :
  high - low < fuel ->
  exists r,
    Array_qsort_sort___at_Lean_Elab_InfoTree_smallestTacticStates___spec__3
      fuel lt a low high = Some r.
Proof.
  revert a low high; induction fuel as [|f IH]; intros a low high Hf; [lia|].
  cbn [Array_qsort_sort___at_Lean_Elab_InfoTree_smallestTacticStates___spec__3].
  destruct (low <? high) eqn:E; [|eauto].
  apply Nat.ltb_lt in E. cbv zeta.
  match goal with
  | |- exists r, match ?X with _ => _ end = _ =>
      assert (HX : exists i' a', X = Some (i', a') /\ low <= i')
  end.
  { repeat match goal with
           | |- context [if ?c then _ else _] => destruct c
           end; apply Array_qpartition_loop_terminates; lia. }
  destruct HX as [i' [a' [-> Hi]]].
  destruct (high <=? i') eqn:E2; [eauto|]. apply Nat.leb_gt in E2.
  destruct (IH a' low i') as [r1 ->]; [lia|]. apply IH. lia.
Qed.

(** More fuel does not change a result. *)
Lemma Array_qsort_sort_fuel_mono f1 f2 lt a low high r :
  f1 <= f2 ->
  Array_qsort_sort___at_Lean_Elab_InfoTree_smallestTacticStates___spec__3
    f1 lt a low high = Some r ->
  Array_qsort_sort___at_Lean_Elab_InfoTree_smallestTacticStates___spec__3
    f2 lt a low high = Some r.
Proof.
  revert f2 a low high r; induction f1 as [|f1 IH]; intros f2 a low high r Hle;
    [discriminate|].
  destruct f2 as [|f2]; [lia|].
  cbn [Array_qsort_sort___at_Lean_Elab_InfoTree_smallestTacticStates___spec__3].
  destruct (low <? high); [|trivial]. cbv zeta.
  match goal with
  | |- match ?X with _ => _ end = _ -> _ => destruct X as [[x_6 x_7]|]
  end; [|discriminate].
  destruct (high <=? x_6); [trivial|].
  destruct (Array_qsort_sort___at_Lean_Elab_InfoTree_smallestTacticStates___spec__3
              f1 lt x_7 low x_6) as [x_9|] eqn:E1; [|discriminate].
  rewrite (IH f2 _ _ _ _ ltac:(lia) E1). apply IH. lia.
Qed.

(** [Array.qsort] is the result of the sort for any sufficient fuel. *)
Lemma Array_qsort_returns fuel lt a low high :
  high - low < fuel ->
  Array_qsort_sort___at_Lean_Elab_InfoTree_smallestTacticStates___spec__3
    fuel lt a low high
  = Some (Array_qsort___at_Lean_Elab_InfoTree_smallestTacticStates___spec__2
            a lt low high).
Proof.
  intros Hf.
  unfold Array_qsort___at_Lean_Elab_InfoTree_smallestTacticStates___spec__2.
  destruct (@Array_qsort_sort_terminates (S (high - low)) lt a low high) as [r Hr];
    [lia|].
  rewrite Hr. apply Array_qsort_sort_fuel_mono with (f1 := S (high - low));
    [lia|exact Hr].
Qed.

#[local] Abbreviation D :=
  Array_qpartition_loop___at_Lean_Elab_InfoTree_smallestTacticStates___spec__4___closed__2.
#[local] Abbreviation lt := Lean_Elab_InfoTree_smallestTacticStates___lambda__1.
#[local] Abbreviation get a k := (lean_array_get D a k).

Lemma same_segment_refl low high a : same_segment low high a a.
Proof. repeat split; auto. Qed.

Lemma same_segment_trans low high a b c :
  same_segment low high a b -> same_segment low high b c -> same_segment low high a c.
Proof.
  intros [L1 [O1 P1]] [L2 [O2 P2]]. repeat split.
  - congruence.
  - intros k Hk. rewrite O2, O1; auto.
  - intros P HP. apply P2, P1, HP.
Qed.

Lemma same_segment_widen low high low' high' a b :
  low <= low' -> high' <= high ->
  same_segment low' high' a b -> same_segment low high a b.
Proof.
  intros Hl Hh [L [O Pp]]. repeat split.
  - exact L.
  - intros k Hk. apply O. lia.
  - intros P HP k Hk.
    destruct (le_lt_dec low' k) as [H1|H1]; [destruct (le_lt_dec k high') as [H2|H2]|].
    + apply Pp; [|lia]. intros k' Hk'. apply HP. lia.
    + rewrite O by lia. apply HP. lia.
    + rewrite O by lia. apply HP. lia.
Qed.

Lemma same_segment_swap low high a i j :
  low <= i <= high -> low <= j <= high -> high < length a ->
  same_segment low high a (lean_array_swap a i j).
Proof.
  intros Hi Hj Hh. repeat split.
  - apply lean_array_swap_length.
  - intros k Hk. unfold lean_array_get. rewrite lean_array_swap_nth by lia.
    destruct (k =? j) eqn:E1; [apply Nat.eqb_eq in E1; lia|].
    destruct (k =? i) eqn:E2; [apply Nat.eqb_eq in E2; lia|]. reflexivity.
  - intros P HP k Hk. unfold lean_array_get. rewrite lean_array_swap_nth by lia.
    destruct (k =? j); [apply HP; lia|].
    destruct (k =? i); apply HP; lia.
Qed.

(** The order of the sort compares the recorded positions. *)
Lemma lt_key (x y : TacticState) : lt x y = (fst x <? fst y).
Proof. reflexivity. Qed.

(** The partition loop: started with the cells [low .. i-1] below the
    pivot, the cells [i .. j-1] not below it, the pivot in cell [hi] and a
    cell not below the pivot still to come (or already met), it returns a
    split point [i' < hi] holding the pivot, with the cells before it below
    the pivot and the cells after it not below. *)
Lemma qpartition_loop_spec fuel hi pivot low :
  forall a i j i' a',
  Array_qpartition_loop___at_Lean_Elab_InfoTree_smallestTacticStates___spec__4
    fuel lt hi pivot a i j = Some (i', a') ->
  hi < length a -> low <= i <= j -> j <= hi ->
  get a hi = pivot ->
  (forall k, low <= k < i -> fst (get a k) < fst pivot) ->
  (forall k, i <= k < j -> fst pivot <= fst (get a k)) ->
  ((exists m, j <= m < hi /\ fst pivot <= fst (get a m)) \/ i < j) ->
  same_segment i hi a a' /\
  i <= i' < hi /\
  (forall k, low <= k < i' -> fst (get a' k) < fst pivot) /\
  (forall k, i' <= k <= hi -> fst pivot <= fst (get a' k)) /\
  fst (get a' i') = fst pivot.
Proof.
  induction fuel as [|f IH]; intros a i j i' a' Hrun Hhi Hij Hjh Hpiv Hleft Hright Hmed;
    [discriminate|].
  cbn [Array_qpartition_loop___at_Lean_Elab_InfoTree_smallestTacticStates___spec__4] in Hrun.
  destruct (j <? hi) eqn:Ej.
  - apply Nat.ltb_lt in Ej.
    destruct (lt (get a j) pivot) eqn:El.
    + rewrite lt_key in El. apply Nat.ltb_lt in El.
      assert (Hsw : forall k, get (lean_array_swap a i j) k
                = if k =? j then get a i else if k =? i then get a j else get a k).
      { intros k. unfold lean_array_get. apply lean_array_swap_nth; lia. }
      apply IH in Hrun; clear IH.
      * destruct Hrun as [Hseg [Hi' [Hl' [Hr' Hp']]]].
        split; [|repeat split; try assumption; lia].
        apply same_segment_trans with (b := lean_array_swap a i j).
        -- apply same_segment_swap; lia.
        -- apply same_segment_widen with (low' := i + 1) (high' := hi); [lia|lia|exact Hseg].
      * rewrite lean_array_swap_length. exact Hhi.
      * lia.
      * lia.
      * rewrite Hsw.
        destruct (hi =? j) eqn:E1; [apply Nat.eqb_eq in E1; lia|].
        destruct (hi =? i) eqn:E2; [apply Nat.eqb_eq in E2; lia|]. exact Hpiv.
      * intros k Hk. rewrite Hsw.
        destruct (k =? j) eqn:E1.
        { apply Nat.eqb_eq in E1. assert (i = j) by lia. subst. exact El. }
        destruct (k =? i) eqn:E2; [exact El|].
        apply Nat.eqb_neq in E2. apply Hleft. lia.
      * intros k Hk. rewrite Hsw.
        destruct (k =? j) eqn:E1; [apply Hright; lia|].
        apply Nat.eqb_neq in E1.
        destruct (k =? i) eqn:E2; [apply Nat.eqb_eq in E2; lia|].
        apply Hright. lia.
      * destruct Hmed as [[m [Hm Hkm]]|Hlt]; [|right; lia].
        left. exists m. assert (m <> j) by (intros ->; lia).
        split; [lia|]. rewrite Hsw.
        destruct (m =? j) eqn:E1; [apply Nat.eqb_eq in E1; lia|].
        destruct (m =? i) eqn:E2; [apply Nat.eqb_eq in E2; lia|]. exact Hkm.
    + rewrite lt_key in El. apply Nat.ltb_ge in El.
      apply IH in Hrun; clear IH; try assumption; try lia.
      intros k Hk. destruct (Nat.eq_dec k j) as [->|Hne]; [exact El|].
      apply Hright. lia.
  - apply Nat.ltb_ge in Ej. injection Hrun as <- <-.
    assert (j = hi) by lia. subst j.
    assert (Hlt : i < hi) by (destruct Hmed as [[m [Hm _]]|]; lia).
    assert (Hsw : forall k, get (lean_array_swap a i hi) k
              = if k =? hi then get a i else if k =? i then get a hi else get a k).
    { intros k. unfold lean_array_get. apply lean_array_swap_nth; lia. }
    split; [apply same_segment_swap; lia|].
    split; [lia|]. split; [|split].
    + intros k Hk. rewrite Hsw.
      destruct (k =? hi) eqn:E1; [apply Nat.eqb_eq in E1; lia|].
      destruct (k =? i) eqn:E2; [apply Nat.eqb_eq in E2; lia|].
      apply Hleft. lia.
    + intros k Hk. rewrite Hsw.
      destruct (k =? hi) eqn:E1; [apply Hright; lia|].
      apply Nat.eqb_neq in E1.
      destruct (k =? i) eqn:E2; [rewrite Hpiv; lia|].
      apply Nat.eqb_neq in E2. apply Hright. lia.
    + rewrite Hsw.
      destruct (i =? hi) eqn:E1; [apply Nat.eqb_eq in E1; lia|].
      rewrite Nat.eqb_refl. now rewrite Hpiv.
Qed.


(** The last exchange of the median-of-three selection leaves in cell
    [mid] an element that is not below the pivot in cell [high]. *)
Lemma pivot_step (b : Array TacticState) mid high :
  mid < high -> high < length b ->
  (lt (get b mid) (get b high) = true ->
   fst (get (lean_array_swap b mid high) high)
   <= fst (get (lean_array_swap b mid high) mid)) /\
  (lt (get b mid) (get b high) = false -> fst (get b high) <= fst (get b mid)).
Proof.
  intros Hm Hh. rewrite lt_key. split; intros E.
  - apply Nat.ltb_lt in E. unfold lean_array_get in *.
    rewrite !lean_array_swap_nth by lia.
    rewrite Nat.eqb_refl.
    destruct (mid =? high) eqn:E1; [apply Nat.eqb_eq in E1; lia|].
    rewrite Nat.eqb_refl. lia.
  - apply Nat.ltb_ge in E. exact E.
Qed.

(** The sort changes only the cells [low .. high], fills them with
    elements that were in those cells, and leaves them in ascending order
    of position. *)
Lemma qsort_sort_spec fuel :
  forall a low high r,
  Array_qsort_sort___at_Lean_Elab_InfoTree_smallestTacticStates___spec__3
    fuel lt a low high = Some r ->
  (low < high -> high < length a) ->
  same_segment low high a r /\
  (forall k1 k2, low <= k1 <= k2 -> k2 <= high ->
                 fst (get r k1) <= fst (get r k2)).
Proof.
  induction fuel as [|f IH]; intros a low high r Hrun Hlen; [discriminate|].
  cbn [Array_qsort_sort___at_Lean_Elab_InfoTree_smallestTacticStates___spec__3] in Hrun.
  destruct (low <? high) eqn:Elh.
  2:{ apply Nat.ltb_ge in Elh. injection Hrun as <-.
      split; [apply same_segment_refl|].
      intros k1 k2 H1 H2. replace k2 with k1 by lia. lia. }
  apply Nat.ltb_lt in Elh. specialize (Hlen Elh). cbv zeta in Hrun.
  set (mid := (low + high) / 2) in *.
  assert (Hmid : low <= mid < high).
  { unfold mid. split.
    - apply Nat.div_le_lower_bound; lia.
    - apply Nat.Div0.div_lt_upper_bound; lia. }
  match type of Hrun with
  | match ?X with _ => _ end = _ => destruct X as [[x_6 x_7]|] eqn:Epart
  end; [|discriminate].
  assert (Hb : exists b,
             Array_qpartition_loop___at_Lean_Elab_InfoTree_smallestTacticStates___spec__4
               (S (high - low)) lt high (get b high) b low low = Some (x_6, x_7) /\
             same_segment low high a b /\
             fst (get b high) <= fst (get b mid)).
  { revert Epart.
    set (x_18 := if lt (get a mid) (get a low) then lean_array_swap a low mid else a).
    assert (H18 : same_segment low high a x_18).
    { unfold x_18. destruct (lt _ _); [apply same_segment_swap; lia|apply same_segment_refl]. }
    clearbody x_18.
    assert (L18 : high < length x_18) by (destruct H18 as [-> _]; exact Hlen).
    destruct (lt (get x_18 high) (get x_18 low)).
    - set (x_31 := lean_array_swap x_18 low high).
      assert (H31 : same_segment low high a x_31).
      { apply same_segment_trans with (b := x_18); [exact H18|].
        apply same_segment_swap; lia. }
      assert (L31 : high < length x_31) by (destruct H31 as [-> _]; exact Hlen).
      clearbody x_31.
      destruct (@pivot_step x_31 mid high (proj2 Hmid) L31) as [Pt Pf].
      destruct (lt (get x_31 mid) (get x_31 high)); intros Epart.
      + exists (lean_array_swap x_31 mid high). split; [exact Epart|]. split; [|auto].
        apply same_segment_trans with (b := x_31); [exact H31|].
        apply same_segment_swap; lia.
      + exists x_31. auto.
    - destruct (@pivot_step x_18 mid high (proj2 Hmid) L18) as [Pt Pf].
      destruct (lt (get x_18 mid) (get x_18 high)); intros Epart.
      + exists (lean_array_swap x_18 mid high). split; [exact Epart|]. split; [|auto].
        apply same_segment_trans with (b := x_18); [exact H18|].
        apply same_segment_swap; lia.
      + exists x_18. auto. }
  clear Epart. destruct Hb as [b [Epart [Hab Hmed]]].
  assert (Lb : high < length b) by (destruct Hab as [-> _]; exact Hlen).
  apply qpartition_loop_spec with (low := low) in Epart;
    [|exact Lb|lia|lia|reflexivity| intros; lia | intros; lia
     | left; exists mid; split; [lia|exact Hmed]].
  destruct Epart as [Hb7 [H6 [Hleft [Hright Hpiv]]]].
  set (c := fst (get b high)) in *.
  replace (high <=? x_6) with false in Hrun by (symmetry; apply Nat.leb_gt; lia).
  destruct (Array_qsort_sort___at_Lean_Elab_InfoTree_smallestTacticStates___spec__3
              f lt x_7 low x_6) as [x_9|] eqn:E1; [|discriminate].
  assert (L7 : length x_7 = length a) by (destruct Hb7 as [-> _]; destruct Hab as [-> _]; reflexivity).
  apply IH in E1; [|intros; lia].
  destruct E1 as [H79 S1].
  assert (L9 : length x_9 = length a) by (destruct H79 as [-> _]; exact L7).
  apply IH in Hrun; [|intros; lia].
  destruct Hrun as [H9r S2].
  split.
  - apply same_segment_trans with (b := b); [exact Hab|].
    apply same_segment_trans with (b := x_7); [exact Hb7|].
    apply same_segment_trans with (b := x_9).
    + apply same_segment_widen with (low' := low) (high' := x_6); [lia|lia|exact H79].
    + apply same_segment_widen with (low' := x_6 + 1) (high' := high); [lia|lia|exact H9r].
  - assert (Hlo : forall k, low <= k <= x_6 -> fst (get r k) <= c).
    { intros k Hk. destruct H9r as [_ [O9 _]]. rewrite O9 by lia.
      destruct H79 as [_ [_ P79]].
      apply (P79 (fun x => fst x <= c)); [|exact Hk].
      intros k' Hk'. destruct (Nat.eq_dec k' x_6) as [->|Hne]; [lia|].
      specialize (Hleft k'). lia. }
    assert (Hhi : forall k, x_6 + 1 <= k <= high -> c <= fst (get r k)).
    { intros k Hk. destruct H9r as [_ [_ P9r]].
      apply (P9r (fun x => c <= fst x)); [|exact Hk].
      intros k' Hk'. destruct H79 as [_ [O79 _]]. rewrite O79 by lia.
      apply Hright. lia. }
    intros k1 k2 Hk1 Hk2.
    destruct (le_lt_dec k2 x_6) as [Ha|Ha].
    + destruct H9r as [_ [O9 _]]. rewrite !O9 by lia. apply S1; lia.
    + destruct (le_lt_dec (x_6 + 1) k1) as [Hc|Hc].
      * apply S2; lia.
      * specialize (Hlo k1). specialize (Hhi k2). lia.
Qed.


(** [smallestTacticStates] returns its candidates in ascending order of
    recorded position, and every cell of the result is one of them. *)
Lemma smallestTacticStates_sorted (t : InfoTree) :
  sorted_by_pos (Lean_Elab_InfoTree_smallestTacticStates t).
Proof.
  unfold Lean_Elab_InfoTree_smallestTacticStates. cbv zeta.
  rewrite List_toArrayAux_nil.
  set (a := List_filterMap___at_Lean_Elab_InfoTree_smallestTacticStates___spec__1 _).
  unfold lean_array_get_size.
  pose proof (@Array_qsort_returns (S (length a - 1 - 0)) lt a 0 (length a - 1)
                ltac:(lia)) as Hrun.
  apply qsort_sort_spec in Hrun; [|intros; lia].
  destruct Hrun as [[Hl _] Hs].
  intros k1 k2 e1 e2 Hk H1 H2.
  assert (Hk2 : k2 < length a) by (rewrite <- Hl; apply nth_error_Some; congruence).
  rewrite <- (nth_error_nth _ _ D H1), <- (nth_error_nth _ _ D H2).
  apply Hs; lia.
Qed.

Lemma smallestTacticStates_elements (t : InfoTree) (e : TacticState) :
  In e (Lean_Elab_InfoTree_smallestTacticStates t) ->
  In e (List_filterMap___at_Lean_Elab_InfoTree_smallestTacticStates___spec__1
          (Lean_Elab_InfoTree_smallestTacticStates_tacticLeaves t)).
Proof.
  unfold Lean_Elab_InfoTree_smallestTacticStates,
    Lean_Elab_InfoTree_smallestTacticStates_tacticLeaves. cbv zeta.
  rewrite List_toArrayAux_nil.
  set (a := List_filterMap___at_Lean_Elab_InfoTree_smallestTacticStates___spec__1 _).
  unfold lean_array_get_size.
  pose proof (@Array_qsort_returns (S (length a - 1 - 0)) lt a 0 (length a - 1)
                ltac:(lia)) as Hrun.
  apply qsort_sort_spec in Hrun; [|intros; lia].
  destruct Hrun as [[Hl [_ HP]] _].
  intros Hin. apply (In_nth _ _ D) in Hin. destruct Hin as [k [Hk <-]].
  rewrite Hl in Hk.
  apply (HP (fun x => In x a)); [|lia].
  intros k' Hk'. apply nth_In. lia.
Qed.

End Sorting.

(* ================================================================== *)
(** * goalsAt? *)
(* ================================================================== *)

Section GoalsAt.
Context `{EI : ExternInhabited}.

Lemma mapIdxM_map_seq (ts as_ : Array TacticState) (i j : nat) (bs : Array (nat * nat)) :
  Array_mapIdxM_map___at_Lean_Elab_InfoTree_goalsAt_x3f___spec__1 ts as_ i j bs
  = bs ++ map (fun k =>
                 Array_mapIdxM_map___at_Lean_Elab_InfoTree_goalsAt_x3f___spec__1___lambda__1
                   as_ k ts) (seq j i).
Proof.
  revert j bs; induction i as [|i IH]; intros j bs; simpl.
  - now rewrite app_nil_r.
  - rewrite IH. unfold lean_array_push. rewrite <- app_assoc.
    now replace (j + 1) with (S j) by lia.
Qed.

Lemma lambda__1_at (pre rest : list TacticState) (e : TacticState) :
  Array_mapIdxM_map___at_Lean_Elab_InfoTree_goalsAt_x3f___spec__1___lambda__1
    (pre ++ e :: rest) (length pre) (pre ++ e :: rest)
  = (fst e, match rest with
            | [] => end_of_last e
            | e' :: _ => fst e'
            end).
Proof.
  unfold Array_mapIdxM_map___at_Lean_Elab_InfoTree_goalsAt_x3f___spec__1___lambda__1,
    lean_array_fget, lean_array_get_size. cbv zeta.
  rewrite nth_middle. rewrite length_app.
  destruct rest as [|e' rest]; cbn [length].
  - match goal with
    | |- context [?a <? ?b] =>
        replace (a <? b) with false by (symmetry; apply Nat.ltb_ge; lia)
    end.
    reflexivity.
  - match goal with
    | |- context [?a <? ?b] =>
        replace (a <? b) with true by (symmetry; apply Nat.ltb_lt; lia)
    end.
    replace (pre ++ e :: e' :: rest) with ((pre ++ [e]) ++ e' :: rest)
      by now rewrite <- app_assoc.
    replace (length pre + 1) with (length (pre ++ [e]))
      by (rewrite length_app; reflexivity).
    now rewrite nth_middle.
Qed.

Lemma extents_from (pre ts : list TacticState) :
  map (fun k =>
         Array_mapIdxM_map___at_Lean_Elab_InfoTree_goalsAt_x3f___spec__1___lambda__1
           (pre ++ ts) k (pre ++ ts)) (seq (length pre) (length ts))
  = pos_intervals ts.
Proof.
  revert pre; induction ts as [|e rest IH]; intros pre; [reflexivity|].
  cbn [length seq map pos_intervals]. rewrite lambda__1_at. f_equal.
  specialize (IH (pre ++ [e])).
  rewrite <- app_assoc in IH. cbn [app] in IH.
  rewrite length_app in IH. cbn [length] in IH.
  replace (length pre + 1) with (S (length pre)) in IH by lia. exact IH.
Qed.

(** The intervals built by [goalsAt?] are [pos_intervals]. *)
Lemma extents_pos_intervals (ts : Array TacticState) :
  extents ts = pos_intervals ts.
Proof.
  unfold extents. rewrite mapIdxM_map_seq. cbn [app].
  apply (extents_from [] ts).
Qed.

Lemma findIdx_loop_none {A} (d : A) (a : Array A) (p : A -> bool) (i j : nat) :
  (forall x, In x a -> p x = false) ->
  Array_findIdx_x3f_loop d a p i j = None.
Proof.
  intros Hall. revert j; induction i as [|i IH]; intros j; [reflexivity|].
  cbn [Array_findIdx_x3f_loop]. unfold lean_array_get_size, lean_array_fget.
  destruct (j <? length a) eqn:E; [|reflexivity].
  apply Nat.ltb_lt in E. rewrite (Hall (nth j a d)); [apply IH|now apply nth_In].
Qed.

Lemma findIdx_loop_some {A} (d : A) (a : Array A) (p : A -> bool) (i j k : nat) :
  Array_findIdx_x3f_loop d a p i j = Some k ->
  j <= k < length a /\ p (nth k a d) = true /\
  forall k', j <= k' < k -> p (nth k' a d) = false.
Proof.
  revert j; induction i as [|i IH]; intros j; [discriminate|].
  cbn [Array_findIdx_x3f_loop]. unfold lean_array_get_size, lean_array_fget.
  destruct (j <? length a) eqn:E; [|discriminate].
  apply Nat.ltb_lt in E. destruct (p (nth j a d)) eqn:Hp.
  - intros [= <-]. repeat split; try assumption; try lia.
  - intros Hk. destruct (IH _ Hk) as [Hr [Hpk Hbefore]].
    repeat split; try assumption; try lia.
    intros k' Hk'. destruct (Nat.eq_dec k' j) as [->|Hne]; [exact Hp|].
    apply Hbefore. lia.
Qed.

Lemma goalsAt_lambda__1_inside (hoverPos : nat) (c : nat * nat) :
  Lean_Elab_InfoTree_goalsAt_x3f___lambda__1 hoverPos c = true <-> inside hoverPos c.
Proof.
  unfold Lean_Elab_InfoTree_goalsAt_x3f___lambda__1, inside.
  destruct (fst c <=? hoverPos) eqn:E.
  - apply Nat.leb_le in E. rewrite Nat.ltb_lt. split; [intros; split|intros []]; assumption.
  - apply Nat.leb_gt in E. split; [discriminate|]. intros []. lia.
Qed.

Lemma pos_intervals_length (ts : list TacticState) :
  length (pos_intervals ts) = length ts.
Proof. induction ts as [|e rest IH]; simpl; [reflexivity|now rewrite IH]. Qed.


(** C6 (amended). [Info.pos?] and [Info.tailPos?] ask the syntax accessors
    with [originalOnly = true], and so does the position recorded for every
    sorted tactic state; the tail-position lookup that closes the last
    interval of [goalsAt?] asks with [originalOnly = false]. *)
Theorem C6_position_flags :
  (forall i : Info,
     Lean_Elab_Info_pos_x3f i = Lean_Syntax_getPos_x3f (Lean_Elab_Info_stx i) true) /\
  (forall i : Info,
     Lean_Elab_Info_tailPos_x3f i
     = Lean_Syntax_getTailPos_x3f (Lean_Elab_Info_stx i) true) /\
  (forall ci ti cs rest,
     List_filterMap___at_Lean_Elab_InfoTree_smallestTacticStates___spec__1
       (context ci (node (ofTacticInfo ti) cs) :: rest)
     = (Option_get_x21 (Lean_Syntax_getPos_x3f (ti_stx ti) true), (ci, ti))
       :: List_filterMap___at_Lean_Elab_InfoTree_smallestTacticStates___spec__1 rest) /\
  (forall (pre : list TacticState) (e : TacticState),
     Array_mapIdxM_map___at_Lean_Elab_InfoTree_goalsAt_x3f___spec__1___lambda__1
       (pre ++ [e]) (length pre) (pre ++ [e])
     = (fst e,
        Option_get_x21 (Lean_Syntax_getTailPos_x3f (ti_stx (snd (snd e))) false))).
Proof.
  repeat split.
  intros pre e. apply (lambda__1_at pre [] e).
Qed.


Lemma findIdx_loop_first {A} (d : A) (a : Array A) (p : A -> bool) (i j0 j : nat) :
  j0 <= j -> j < j0 + i -> j < length a ->
  p (nth j a d) = true ->
  (forall k, j0 <= k < j -> p (nth k a d) = false) ->
  Array_findIdx_x3f_loop d a p i j0 = Some j.
Proof.
  revert j0; induction i as [|i IH]; intros j0 H0 Hi Hl Hp Hbefore; [lia|].
  cbn [Array_findIdx_x3f_loop]. unfold lean_array_get_size, lean_array_fget.
  replace (j0 <? length a) with true by (symmetry; apply Nat.ltb_lt; lia).
  destruct (Nat.eq_dec j0 j) as [->|Hne].
  - now rewrite Hp.
  - rewrite Hbefore by lia. apply IH; try lia; try assumption.
    intros k Hk. apply Hbefore. lia.
Qed.

Lemma pos_intervals_nth (ts : list TacticState) (k : nat) e c :
  nth_error ts k = Some e ->
  nth_error (pos_intervals ts) k = Some c ->
  fst c = fst e /\
  (forall e', nth_error ts (S k) = Some e' -> snd c = fst e') /\
  (nth_error ts (S k) = None -> snd c = end_of_last e).
Proof.
  revert k; induction ts as [|x rest IH]; intros [|k] He Hc; simpl in He, Hc;
    try discriminate.
  - injection He as ->. injection Hc as <-. cbn [fst snd]. split; [reflexivity|].
    destruct rest as [|y rest']; simpl; split; intros; congruence.
  - now apply IH.
Qed.

Lemma goalsAt_classifies (t : InfoTree) (hoverPos j : nat) e c :
  nth_error (Lean_Elab_InfoTree_smallestTacticStates t) j = Some e ->
  nth_error (pos_intervals (Lean_Elab_InfoTree_smallestTacticStates t)) j = Some c ->
  inside hoverPos c ->
  Lean_Elab_InfoTree_goalsAt_x3f t hoverPos = Some (snd e).
Proof.
  intros He Hc Hin.
  set (ts := Lean_Elab_InfoTree_smallestTacticStates t) in *.
  unfold Lean_Elab_InfoTree_goalsAt_x3f. cbv zeta. fold ts. fold (extents ts).
  rewrite extents_pos_intervals.
  set (d := (instInhabitedNat, instInhabitedNat)).
  assert (Hj : j < length ts) by (apply nth_error_Some; congruence).
  rewrite (@findIdx_loop_first _ d (pos_intervals ts) _ _ 0 j).
  - unfold lean_array_get. now rewrite (nth_error_nth _ _ _ He).
  - lia.
  - unfold lean_array_get_size. rewrite pos_intervals_length. lia.
  - rewrite pos_intervals_length. exact Hj.
  - rewrite (nth_error_nth _ _ d Hc). now apply goalsAt_lambda__1_inside.
  - intros k Hk.
    destruct (nth_error ts k) as [ek|] eqn:Ek;
      [|apply nth_error_None in Ek; lia].
    destruct (nth_error (pos_intervals ts) k) as [ck|] eqn:Eck;
      [|apply nth_error_None in Eck; rewrite pos_intervals_length in Eck; lia].
    rewrite (nth_error_nth _ _ d Eck).
    destruct (pos_intervals_nth _ _ Ek Eck) as [_ [Hnext _]].
    destruct (nth_error ts (S k)) as [ek'|] eqn:Ek';
      [|apply nth_error_None in Ek'; lia].
    specialize (Hnext ek' eq_refl).
    destruct (pos_intervals_nth _ _ He Hc) as [Hfst _].
    assert (Hs : fst ek' <= fst e).
    { apply (@smallestTacticStates_sorted _ _ t (S k) j); [lia|exact Ek'|exact He]. }
    destruct (Lean_Elab_InfoTree_goalsAt_x3f___lambda__1 hoverPos ck) eqn:El;
      [|reflexivity].
    apply goalsAt_lambda__1_inside in El. unfold inside in *. lia.
Qed.


End GoalsAt.

Section Scenario.
Context `{EI : ExternInhabited}.

Lemma tacticLeaves_lambda__1_true (ti : TacticInfo) (pos tailPos : nat) :
  Lean_Syntax_getPos_x3f (ti_stx ti) true = Some pos ->
  Lean_Syntax_getTailPos_x3f (ti_stx ti) true = Some tailPos ->
  Lean_Elab_InfoTree_smallestTacticStates_tacticLeaves___lambda__1 (ofTacticInfo ti)
  = true.
Proof.
  intros Hp Ht.
  unfold Lean_Elab_InfoTree_smallestTacticStates_tacticLeaves___lambda__1,
    Lean_Elab_Info_pos_x3f, Lean_Elab_Info_tailPos_x3f. cbn [Lean_Elab_Info_stx].
  now rewrite Hp, Ht.
Qed.

(** C10 (amended). In a tree whose root node, under a context wrapper,
    has two childless sibling tactic nodes with ranges [0,5) and [5,10), in
    either order, the tail position of the second range being 10 for
    [originalOnly = false] as well, [goalsAt?] at offset 7 returns the
    context and the info of the sibling with range [5,10), and at offset 12
    it returns [None].  On the same node without the context wrapper
    [goalsAt?] returns [None] at every offset. *)
Theorem C10_two_siblings_scenario ci (parent : Info) (t1 t2 : TacticInfo)
    (siblings : PersistentArray InfoTree) :
  Lean_Syntax_getPos_x3f (ti_stx t1) true = Some 0 ->
  Lean_Syntax_getTailPos_x3f (ti_stx t1) true = Some 5 ->
  Lean_Syntax_getPos_x3f (ti_stx t2) true = Some 5 ->
  Lean_Syntax_getTailPos_x3f (ti_stx t2) true = Some 10 ->
  Lean_Syntax_getTailPos_x3f (ti_stx t2) false = Some 10 ->
  siblings = [node (ofTacticInfo t1) []; node (ofTacticInfo t2) []] \/
  siblings = [node (ofTacticInfo t2) []; node (ofTacticInfo t1) []] ->
  Lean_Elab_InfoTree_goalsAt_x3f (context ci (node parent siblings)) 7 = Some (ci, t2) /\
  Lean_Elab_InfoTree_goalsAt_x3f (context ci (node parent siblings)) 12 = None /\
  (forall hoverPos,
     Lean_Elab_InfoTree_goalsAt_x3f (node parent siblings) hoverPos = None).
Proof.
  intros Hp1 Ht1 Hp2 Ht2 Ht2' Hs.
  assert (Hbare : Lean_Elab_InfoTree_smallestTacticStates (node parent siblings) = []).
  { unfold Lean_Elab_InfoTree_smallestTacticStates. cbv zeta.
    destruct Hs as [-> | ->];
      cbn [Lean_Elab_InfoTree_smallestNodes Std_PersistentArray_toList map List_join
           concat app List_isEmpty];
      rewrite (tacticLeaves_lambda__1_true t1 Hp1 Ht1),
              (tacticLeaves_lambda__1_true t2 Hp2 Ht2);
      reflexivity. }
  assert (Hts : Lean_Elab_InfoTree_smallestTacticStates (context ci (node parent siblings))
                = [(0, (ci, t1)); (5, (ci, t2))]).
  { unfold Lean_Elab_InfoTree_smallestTacticStates. cbv zeta.
    destruct Hs as [-> | ->];
      cbn [Lean_Elab_InfoTree_smallestNodes Std_PersistentArray_toList map List_join
           concat app List_isEmpty
           List_map___at_Lean_Elab_InfoTree_smallestNodes___spec__1];
      rewrite (tacticLeaves_lambda__1_true t1 Hp1 Ht1),
              (tacticLeaves_lambda__1_true t2 Hp2 Ht2);
      cbn [app List_isEmpty map
           List_filterMap___at_Lean_Elab_InfoTree_smallestTacticStates___spec__1];
      unfold Lean_Elab_Info_pos_x3f; cbn [Lean_Elab_Info_stx];
      rewrite Hp1, Hp2; reflexivity. }
  unfold Lean_Elab_InfoTree_goalsAt_x3f. cbv zeta. rewrite Hts.
  fold (extents [(0, (ci, t1)); (5, (ci, t2))]). rewrite extents_pos_intervals.
  cbn [pos_intervals fst]. unfold end_of_last. cbn [snd]. rewrite Ht2'.
  split; [reflexivity|]. split; [reflexivity|].
  intros hoverPos. rewrite Hbare. reflexivity.
Qed.

End Scenario.

(* ================================================================== *)
(** * The properties on concrete trees *)
(* ================================================================== *)

Module Examples.
Import Model.



(** C3, as stated, fails: the element found under a context wrapper comes
    back wrapped in that context. *)
Lemma C3_counterexample :
  Lean_Elab_InfoTree_smallestNodes always wrapped_leaf = [context 1 (node infoA [])] /\
  Lean_Elab_InfoTree_smallestNodes always wrapped_leaf
  <> Lean_Elab_InfoTree_smallestNodes always (node infoA []).
Proof. split; [reflexivity|discriminate]. Qed.

(** C4, as stated, fails: the single node is hoverable at offset 7 and is
    the deepest match, yet the query returns [None]. *)
Lemma C4_counterexample :
  Lean_Elab_Info_pos_x3f hover_info = Some 5 /\
  Lean_Elab_Info_tailPos_x3f hover_info = Some 10 /\
  Lean_Elab_InfoTree_hoverableInfoAt_x3f___lambda__1 7 hover_info = true /\
  Lean_Elab_InfoTree_smallestNodes
    (Lean_Elab_InfoTree_hoverableInfoAt_x3f___lambda__1 7) bare_node = [bare_node] /\
  Lean_Elab_InfoTree_hoverableInfoAt_x3f bare_node 7 = None.
Proof. repeat split. Qed.

(** C5, as stated, fails: a node without a start position is ranked with
    the width [10 - 0] and returned. *)
Lemma C5_counterexample :
  Lean_Elab_Info_pos_x3f info_nopos = None /\
  candidates always missing_pos_tree = [(10, (2, info_nopos))] /\
  Lean_Elab_InfoTree_smallestInfo_x3f always missing_pos_tree = Some (2, info_nopos).
Proof. repeat split. Qed.

(** C6, as stated, fails: the last interval of [goalsAt?] ends at the tail
    position answered for [canonical_only = false] (8), not at the one
    answered for [canonical_only = true] (5), so offset 6 resolves to the
    tactic. *)
Lemma C6_counterexample :
  Lean_Elab_Info_tailPos_x3f (ofTacticInfo ti_mixed) = Some 5 /\
  extents (Lean_Elab_InfoTree_smallestTacticStates mixed_tail_tree) = [(0, 8)] /\
  Lean_Elab_InfoTree_goalsAt_x3f mixed_tail_tree 6 = Some (1, ti_mixed).
Proof. repeat split. Qed.

(** A result wrapped in two contexts is dropped by the filter as well. *)
Lemma smallestInfo_double_wrapped :
  Lean_Elab_InfoTree_smallestNodes always (context 1 (context 2 (node infoA [])))
  = [context 1 (context 2 (node infoA []))] /\
  Lean_Elab_InfoTree_smallestInfo_x3f always (context 1 (context 2 (node infoA [])))
  = None.
Proof. split; reflexivity. Qed.

(** C7, as stated, fails: on [nested_match] the search returns the child
    although the root comes first in pre-order and satisfies the
    predicate. *)
Lemma C7_counterexample :
  exists n l1 l2 m,
    Lean_Elab_InfoTree_smallestNode_x3f always nested_match = Some n /\
    preorder nested_match = l1 ++ n :: l2 /\
    In m l1 /\ holds_on always m = true.
Proof.
  exists (node infoB []), [nested_match], [], nested_match.
  repeat split. left. reflexivity.
Qed.

(** C7 on [nested_match]: the child is the first match in post-order. *)
Lemma C7_witness :
  Lean_Elab_InfoTree_smallestNode_x3f always nested_match = Some (node infoB []) /\
  holds_on always (node infoB []) = true /\
  exists l1 l2, postorder nested_match = l1 ++ node infoB [] :: l2 /\
                forall m, In m l1 -> holds_on always m = false.
Proof.
  split; [reflexivity|].
  apply C7_smallestNode_first_match with (t := nested_match).
  reflexivity.
Defined.

(** C4 on [hover_info]: [None] on the bare node, the info under a
    context wrapper. *)
Lemma C4_witness :
  Lean_Elab_InfoTree_hoverableInfoAt_x3f (node hover_info [hole 0]) 7 = None /\
  Lean_Elab_InfoTree_hoverableInfoAt_x3f (context 4 (node hover_info [hole 0])) 7
  = Some (4, hover_info).
Proof.
  apply (@C4_single_node_scenario extern hover_info 4 0).
  - reflexivity.
  - reflexivity.
  - split; [reflexivity|]. exists "ident"%string. split; [|reflexivity].
    left. reflexivity.
Defined.

(** C10, as stated, fails: [bare_siblings] holds the two sibling tactic
    nodes with ranges [0,5) and [5,10), yet offset 7 resolves to no goal;
    and on [long_tail_siblings], whose ranges are the same, offset 12
    resolves to the second tactic. *)
Lemma C10_counterexample :
  Lean_Elab_Info_pos_x3f (tacticAt 0 5) = Some 0 /\
  Lean_Elab_Info_tailPos_x3f (tacticAt 0 5) = Some 5 /\
  Lean_Elab_Info_pos_x3f (tacticAt 5 10) = Some 5 /\
  Lean_Elab_Info_tailPos_x3f (tacticAt 5 10) = Some 10 /\
  Lean_Elab_InfoTree_goalsAt_x3f Samples.bare_siblings 7 = None /\
  Lean_Elab_Info_pos_x3f (ofTacticInfo Samples.ti_long_tail) = Some 5 /\
  Lean_Elab_Info_tailPos_x3f (ofTacticInfo Samples.ti_long_tail) = Some 10 /\
  Lean_Elab_InfoTree_goalsAt_x3f Samples.long_tail_siblings 12
  = Some (1, Samples.ti_long_tail).
Proof. repeat split. Qed.

(** C10 on [two_siblings], and on its root node without the context. *)
Lemma C10_witness :
  Lean_Elab_InfoTree_goalsAt_x3f two_siblings 7 = Some (1, tacticInfoAt 5 10) /\
  Lean_Elab_InfoTree_goalsAt_x3f two_siblings 12 = None /\
  (forall hoverPos,
     Lean_Elab_InfoTree_goalsAt_x3f
       (node (termAt "by" 0 10) [node (tacticAt 0 5) []; node (tacticAt 5 10) []])
       hoverPos = None).
Proof.
  apply C10_two_siblings_scenario with (t1 := tacticInfoAt 0 5);
    try reflexivity.
  left. reflexivity.
Defined.

End Examples.

(* ================================================================== *)
(** * Deepest matches: what the two searches return *)
(* ================================================================== *)

Section SearchFacts.
Context `{EI : ExternInhabited}.

Lemma hd_error_concat {A} (ls : list (list A)) :
  hd_error (concat ls) = first_some (map (@hd_error A) ls).
Proof.
  induction ls as [|l ls IH]; simpl; [reflexivity|].
  destruct l as [|x l]; simpl; [exact IH|reflexivity].
Qed.

Lemma smallestNodes_head (p : Info -> bool) (t : InfoTree) :
  hd_error (Lean_Elab_InfoTree_smallestNodes p t)
  = Lean_Elab_InfoTree_smallestNode_x3f p t.
Proof.
  induction t as [ci t IH|i cs IH|m] using InfoTree_ind'.
  - rewrite smallestNode_context, <- IH. cbn [Lean_Elab_InfoTree_smallestNodes].
    unfold List_map___at_Lean_Elab_InfoTree_smallestNodes___spec__1.
    destruct (Lean_Elab_InfoTree_smallestNodes p t); reflexivity.
  - rewrite smallestNode_node, smallestNodes_node.
    assert (E : hd_error (concat (map (Lean_Elab_InfoTree_smallestNodes p) cs))
                = first_some (map (Lean_Elab_InfoTree_smallestNode_x3f p) cs)).
    { rewrite hd_error_concat, map_map. f_equal.
      induction IH as [|c cs Hc _ IHcs]; simpl; [reflexivity|].
      now rewrite Hc, IHcs. }
    rewrite <- E.
    destruct (concat (map (Lean_Elab_InfoTree_smallestNodes p) cs)); cbn.
    + destruct (p i); reflexivity.
    + reflexivity.
  - reflexivity.
Qed.

Lemma deepest_match_context (p : Info -> bool) ci n :
  deepest_match p (context ci n) = deepest_match p n.
Proof. reflexivity. Qed.

Lemma filter_map_context (p : Info -> bool) ci (l : list InfoTree) :
  filter (deepest_match p) (map (context ci) l)
  = map (context ci) (filter (deepest_match p) l).
Proof.
  induction l as [|x l IH]; simpl; [reflexivity|].
  rewrite deepest_match_context. destruct (deepest_match p x); simpl; now rewrite IH.
Qed.

Lemma filter_concat {A} (f : A -> bool) (ls : list (list A)) :
  filter f (concat ls) = concat (map (filter f) ls).
Proof.
  induction ls as [|l ls IH]; simpl; [reflexivity|].
  now rewrite filter_app, IH.
Qed.

Lemma holds_on_map_context_existsb (p : Info -> bool) ci (l : list InfoTree) :
  existsb (holds_on p) (map (context ci) l) = existsb (holds_on p) l.
Proof.
  induction l as [|x l IH]; simpl; [reflexivity|].
  now rewrite holds_on_context, IH.
Qed.

(** No result exactly when no node matches. *)
Lemma smallestNodes_nil_has_match (p : Info -> bool) (t : InfoTree) :
  Lean_Elab_InfoTree_smallestNodes p t = [] <-> has_match p t = false.
Proof.
  unfold has_match.
  induction t as [ci t IH|i cs IH|m] using InfoTree_ind'.
  - cbn [Lean_Elab_InfoTree_smallestNodes postorder].
    unfold List_map___at_Lean_Elab_InfoTree_smallestNodes___spec__1.
    rewrite holds_on_map_context_existsb, <- IH.
    destruct (Lean_Elab_InfoTree_smallestNodes p t); simpl; split; congruence.
  - rewrite smallestNodes_node. cbn [postorder].
    rewrite existsb_app. cbn [existsb]. unfold holds_on at 2. cbn [unwrap].
    rewrite orb_false_r.
    assert (E : concat (map (Lean_Elab_InfoTree_smallestNodes p) cs) = [] <->
                existsb (holds_on p) (concat (map postorder cs)) = false).
    { clear i. induction IH as [|c cs Hc _ IHcs]; simpl; [tauto|].
      rewrite existsb_app, orb_false_iff, <- Hc, <- IHcs.
      split.
      - intros E. apply app_eq_nil in E. exact E.
      - intros [-> ->]. reflexivity. }
    destruct (concat (map (Lean_Elab_InfoTree_smallestNodes p) cs)) as [|x l] eqn:Ec.
    + destruct E as [E _]. rewrite (E eq_refl). simpl.
      destruct (p i); split; congruence.
    + split; [discriminate|]. intros Hf. apply orb_false_iff in Hf.
      destruct E as [_ E]. specialize (E (proj1 Hf)). discriminate.
  - simpl. tauto.
Qed.

(** [smallestNodes] returns, in post-order, the matching nodes none of
    whose descendants matches. *)
Lemma smallestNodes_filter (p : Info -> bool) (t : InfoTree) :
  Lean_Elab_InfoTree_smallestNodes p t = filter (deepest_match p) (postorder t).
Proof.
  induction t as [ci t IH|i cs IH|m] using InfoTree_ind'.
  - cbn [Lean_Elab_InfoTree_smallestNodes postorder].
    unfold List_map___at_Lean_Elab_InfoTree_smallestNodes___spec__1.
    now rewrite filter_map_context, IH.
  - rewrite smallestNodes_node. cbn [postorder].
    rewrite filter_app, filter_concat, map_map.
    assert (E : map (Lean_Elab_InfoTree_smallestNodes p) cs
                = map (fun x => filter (deepest_match p) (postorder x)) cs).
    { induction IH as [|c cs Hc _ IHcs]; simpl; [reflexivity|]. now rewrite Hc, IHcs. }
    rewrite <- E. cbn [filter]. unfold deepest_match at 1.
    unfold holds_on, children_of. cbn [unwrap].
    assert (Hm : existsb (has_match p) cs = false <->
                 concat (map (Lean_Elab_InfoTree_smallestNodes p) cs) = []).
    { clear. induction cs as [|c cs IHcs]; simpl; [tauto|].
      rewrite orb_false_iff, IHcs, <- smallestNodes_nil_has_match.
      split.
      - intros [-> ->]. reflexivity.
      - intros E. apply app_eq_nil in E. exact E. }
    destruct (concat (map (Lean_Elab_InfoTree_smallestNodes p) cs)) as [|x l] eqn:Ec.
    + destruct Hm as [_ Hm]. rewrite (Hm eq_refl). simpl.
      destruct (p i); reflexivity.
    + destruct (existsb (has_match p) cs) eqn:Eh.
      * rewrite andb_false_r. now rewrite app_nil_r.
      * destruct Hm as [Hm _]. specialize (Hm eq_refl). discriminate.
  - reflexivity.
Qed.

End SearchFacts.

(* ================================================================== *)
(** * Soundness of the answers of smallestInfo? and hoverableInfoAt? *)
(* ================================================================== *)

Section InfoFacts.
Context `{EI : ExternInhabited}.

Lemma filterMap_smallestInfo_in (l : list InfoTree) w ci i :
  In (w, (ci, i)) (List_filterMap___at_Lean_Elab_InfoTree_smallestInfo_x3f___spec__1 l) ->
  exists cs, In (context ci (node i cs)) l /\
             w = Option_get_x21 (Lean_Elab_Info_tailPos_x3f i)
                 - Option_get_x21 (Lean_Elab_Info_pos_x3f i).
Proof.
  induction l as [|x l IH]; [intros []|].
  cbn [List_filterMap___at_Lean_Elab_InfoTree_smallestInfo_x3f___spec__1].
  destruct x as [ci' [ci2 t2|i' cs'|m']|i' cs'|m'];
    try (intros Hin; destruct (IH Hin) as [cs [Hc Hw]]; exists cs; split;
         [right; exact Hc|exact Hw]).
  cbv zeta. intros [E|Hin].
  - injection E as <- <- <-. exists cs'. split; [left; reflexivity|reflexivity].
  - destruct (IH Hin) as [cs [Hc Hw]]. exists cs. split; [right; exact Hc|exact Hw].
Qed.

Lemma filterMap_tacticStates_in (l : list InfoTree) p ci ti :
  In (p, (ci, ti))
     (List_filterMap___at_Lean_Elab_InfoTree_smallestTacticStates___spec__1 l) ->
  exists cs, In (context ci (node (ofTacticInfo ti) cs)) l /\
             p = Option_get_x21 (Lean_Elab_Info_pos_x3f (ofTacticInfo ti)).
Proof.
  induction l as [|x l IH]; [intros []|].
  cbn [List_filterMap___at_Lean_Elab_InfoTree_smallestTacticStates___spec__1].
  destruct x as [ci' [ci2 t2|[ti'|tm|me|fi] cs'|m']|i' cs'|m'];
    try (intros Hin; destruct (IH Hin) as [cs [Hc Hw]]; exists cs; split;
         [right; exact Hc|exact Hw]).
  intros [E|Hin].
  - injection E as <- <- <-. exists cs'. split; [left; reflexivity|reflexivity].
  - destruct (IH Hin) as [cs [Hc Hw]]. exists cs. split; [right; exact Hc|exact Hw].
Qed.

Lemma smallestInfo_in_candidates (p : Info -> bool) (t : InfoTree) r :
  Lean_Elab_InfoTree_smallestInfo_x3f p t = Some r ->
  exists w, In (w, r) (candidates p t).
Proof.
  unfold Lean_Elab_InfoTree_smallestInfo_x3f. cbv zeta.
  rewrite List_toArrayAux_nil. fold (candidates p t).
  pose proof (getMax_first_narrowest (candidates p t)) as G.
  destruct (Array_getMax_x3f___at_Lean_Elab_InfoTree_smallestInfo_x3f___spec__2
              (candidates p t)) as [[w r']|]; [|discriminate].
  intros [= <-]. destruct G as [l1 [l2 [E _]]]. exists w. rewrite E.
  apply in_or_app. right. left. reflexivity.
Qed.

Lemma smallestInfo_sound (p : Info -> bool) (t : InfoTree) ci i :
  Lean_Elab_InfoTree_smallestInfo_x3f p t = Some (ci, i) ->
  p i = true /\
  exists cs, In (context ci (node i cs)) (Lean_Elab_InfoTree_smallestNodes p t).
Proof.
  intros Hs. destruct (smallestInfo_in_candidates _ _ Hs) as [w Hin].
  apply filterMap_smallestInfo_in in Hin. destruct Hin as [cs [Hc _]].
  split; [|exists cs; exact Hc].
  apply smallestNodes_holds_on in Hc. exact Hc.
Qed.

Lemma context_free_results (p : Info -> bool) (t : InfoTree) :
  context_free t = true ->
  forall r, In r (Lean_Elab_InfoTree_smallestNodes p t) -> exists i cs, r = node i cs.
Proof.
  induction t as [ci t IH|i cs IH|m] using InfoTree_ind'; intros Hcf r Hr.
  - discriminate.
  - rewrite smallestNodes_node in Hr. cbn [context_free] in Hcf.
    assert (Hc : forall x, In x (concat (map (Lean_Elab_InfoTree_smallestNodes p) cs)) ->
                           exists i cs, x = node i cs).
    { intros x Hx. apply in_concat in Hx. destruct Hx as [l [Hl Hx]].
      apply in_map_iff in Hl. destruct Hl as [c [<- Hcin]].
      rewrite Forall_forall in IH. rewrite forallb_forall in Hcf.
      exact (IH c Hcin (Hcf c Hcin) x Hx). }
    destruct (concat (map (Lean_Elab_InfoTree_smallestNodes p) cs)) as [|y l].
    + destruct (p i); [|destruct Hr]. destruct Hr as [<-|[]]. eauto.
    + apply Hc, Hr.
  - destruct Hr.
Qed.

Lemma filterMap_smallestInfo_nodes (l : list InfoTree) :
  (forall r, In r l -> exists i cs, r = node i cs) ->
  List_filterMap___at_Lean_Elab_InfoTree_smallestInfo_x3f___spec__1 l = [].
Proof.
  induction l as [|x l IH]; intros Hl; [reflexivity|].
  destruct (Hl x (or_introl eq_refl)) as [i [cs ->]].
  cbn [List_filterMap___at_Lean_Elab_InfoTree_smallestInfo_x3f___spec__1].
  apply IH. intros r Hr. apply Hl. now right.
Qed.

Lemma filterMap_tacticStates_nodes (l : list InfoTree) :
  (forall r, In r l -> exists i cs, r = node i cs) ->
  List_filterMap___at_Lean_Elab_InfoTree_smallestTacticStates___spec__1 l = [].
Proof.
  induction l as [|x l IH]; intros Hl; [reflexivity|].
  destruct (Hl x (or_introl eq_refl)) as [i [cs ->]].
  cbn [List_filterMap___at_Lean_Elab_InfoTree_smallestTacticStates___spec__1].
  apply IH. intros r Hr. apply Hl. now right.
Qed.

Lemma context_free_no_answer (p : Info -> bool) (t : InfoTree) (hoverPos : nat) :
  context_free t = true ->
  Lean_Elab_InfoTree_smallestInfo_x3f p t = None /\
  Lean_Elab_InfoTree_hoverableInfoAt_x3f t hoverPos = None /\
  Lean_Elab_InfoTree_smallestTacticStates t = [] /\
  Lean_Elab_InfoTree_goalsAt_x3f t hoverPos = None.
Proof.
  intros Hcf.
  assert (Hs : forall q, Lean_Elab_InfoTree_smallestInfo_x3f q t = None).
  { intros q. unfold Lean_Elab_InfoTree_smallestInfo_x3f. cbv zeta.
    rewrite filterMap_smallestInfo_nodes; [reflexivity|].
    now apply context_free_results. }
  assert (Ht : Lean_Elab_InfoTree_smallestTacticStates t = []).
  { unfold Lean_Elab_InfoTree_smallestTacticStates. cbv zeta.
    rewrite filterMap_tacticStates_nodes; [reflexivity|].
    now apply context_free_results. }
  split; [apply Hs|]. split; [apply Hs|]. split; [exact Ht|].
  unfold Lean_Elab_InfoTree_goalsAt_x3f. cbv zeta. rewrite Ht. reflexivity.
Qed.

Lemma hoverableInfoAt_sound (t : InfoTree) (hoverPos : nat) ci i :
  Lean_Elab_InfoTree_hoverableInfoAt_x3f t hoverPos = Some (ci, i) ->
  exists pos tailPos,
    Lean_Elab_Info_pos_x3f i = Some pos /\
    Lean_Elab_Info_tailPos_x3f i = Some tailPos /\
    pos <= hoverPos < tailPos /\
    hoverable_kind i.
Proof.
  unfold Lean_Elab_InfoTree_hoverableInfoAt_x3f. intros Hs.
  apply smallestInfo_sound in Hs. destruct Hs as [Hp _].
  now apply hoverable_lambda_iff.
Qed.

Lemma hoverable_candidates_widths (t : InfoTree) (hoverPos : nat) w ci i :
  In (w, (ci, i))
     (candidates (Lean_Elab_InfoTree_hoverableInfoAt_x3f___lambda__1 hoverPos) t) ->
  exists pos tailPos,
    Lean_Elab_Info_pos_x3f i = Some pos /\
    Lean_Elab_Info_tailPos_x3f i = Some tailPos /\
    w = tailPos - pos /\ 0 < w.
Proof.
  unfold candidates. intros Hin.
  apply filterMap_smallestInfo_in in Hin. destruct Hin as [cs [Hc Hw]].
  apply smallestNodes_holds_on in Hc. unfold holds_on in Hc. cbn in Hc.
  apply hoverable_lambda_iff in Hc.
  destruct Hc as [pos [tp [Hp [Ht [Hr _]]]]].
  exists pos, tp. rewrite Hp, Ht in Hw. cbn in Hw. repeat split; try assumption; lia.
Qed.

Lemma smallestTacticStates_positions (t : InfoTree) p ci ti :
  In (p, (ci, ti)) (Lean_Elab_InfoTree_smallestTacticStates t) ->
  Lean_Syntax_getPos_x3f (ti_stx ti) true = Some p /\
  (exists tailPos, Lean_Syntax_getTailPos_x3f (ti_stx ti) true = Some tailPos) /\
  exists cs, In (context ci (node (ofTacticInfo ti) cs))
                (Lean_Elab_InfoTree_smallestTacticStates_tacticLeaves t).
Proof.
  intros Hin. apply smallestTacticStates_elements in Hin.
  apply filterMap_tacticStates_in in Hin. destruct Hin as [cs [Hc Hp]].
  assert (Hh := Hc). unfold Lean_Elab_InfoTree_smallestTacticStates_tacticLeaves in Hh.
  apply smallestNodes_holds_on in Hh. unfold holds_on in Hh. cbn [unwrap] in Hh.
  unfold Lean_Elab_InfoTree_smallestTacticStates_tacticLeaves___lambda__1,
    Lean_Elab_Info_pos_x3f, Lean_Elab_Info_tailPos_x3f in Hh, Hp.
  cbn [Lean_Elab_Info_stx] in Hh, Hp.
  destruct (Lean_Syntax_getPos_x3f (ti_stx ti) true) as [pos|]; [|discriminate].
  destruct (Lean_Syntax_getTailPos_x3f (ti_stx ti) true) as [tp|]; [|discriminate].
  cbn in Hp. subst p. split; [reflexivity|]. split; [now exists tp|now exists cs].
Qed.

End InfoFacts.

(* ================================================================== *)
(** * The sort permutes; classification of offsets by goalsAt? *)
(* ================================================================== *)

Section PermFacts.

Lemma lean_array_set_perm {A} (a : Array A) j (y h : A) :
  nth_error a j = Some y ->
  Permutation (y :: lean_array_set a j h) (h :: a).
Proof.
  revert j; induction a as [|z r IH]; intros [|j] Hj; simpl in Hj; try discriminate.
  - injection Hj as ->. simpl. apply perm_swap.
  - simpl. eapply perm_trans; [apply perm_swap|].
    eapply perm_trans; [apply perm_skip, (IH j Hj)|]. apply perm_swap.
Qed.

Lemma lean_array_set_same {A} (a : Array A) j (y : A) :
  nth_error a j = Some y -> lean_array_set a j y = a.
Proof.
  revert j; induction a as [|z r IH]; intros [|j] Hj; simpl in Hj; try discriminate.
  - injection Hj as ->. reflexivity.
  - simpl. now rewrite IH.
Qed.

Lemma lean_array_swap_perm {A} (a : Array A) i j :
  Permutation (lean_array_swap a i j) a.
Proof.
  unfold lean_array_swap.
  destruct (nth_error a i) as [x|] eqn:Ei; [|apply Permutation_refl].
  destruct (nth_error a j) as [y|] eqn:Ej; [|apply Permutation_refl].
  revert i j x y Ei Ej. induction a as [|h a IH]; intros [|i] [|j] x y Ei Ej;
    simpl in Ei, Ej; try discriminate.
  - injection Ei as ->. injection Ej as ->. simpl. apply Permutation_refl.
  - injection Ei as ->. simpl. now apply lean_array_set_perm.
  - injection Ej as ->. simpl. now apply lean_array_set_perm.
  - simpl. apply perm_skip. now apply IH.
Qed.

End PermFacts.

Section SortPerm.
Context `{EI : ExternInhabited}.

Lemma qpartition_loop_perm fuel lt hi pivot :
  forall a i j i' a',
  Array_qpartition_loop___at_Lean_Elab_InfoTree_smallestTacticStates___spec__4
    fuel lt hi pivot a i j = Some (i', a') ->
  Permutation a' a.
Proof.
  induction fuel as [|f IH]; intros a i j i' a' Hrun; [discriminate|].
  cbn [Array_qpartition_loop___at_Lean_Elab_InfoTree_smallestTacticStates___spec__4] in Hrun.
  destruct (j <? hi).
  - destruct (lt _ pivot).
    + apply IH in Hrun. eapply perm_trans; [exact Hrun|apply lean_array_swap_perm].
    + now apply IH in Hrun.
  - injection Hrun as <- <-. apply lean_array_swap_perm.
Qed.

Lemma qsort_sort_perm fuel lt :
  forall a low high r,
  Array_qsort_sort___at_Lean_Elab_InfoTree_smallestTacticStates___spec__3
    fuel lt a low high = Some r ->
  Permutation r a.
Proof.
  induction fuel as [|f IH]; intros a low high r Hrun; [discriminate|].
  cbn [Array_qsort_sort___at_Lean_Elab_InfoTree_smallestTacticStates___spec__3] in Hrun.
  destruct (low <? high); [|injection Hrun as <-; apply Permutation_refl].
  cbv zeta in Hrun.
  match type of Hrun with
  | match ?X with _ => _ end = _ => destruct X as [[x_6 x_7]|] eqn:Epart
  end; [|discriminate].
  assert (Hp : Permutation x_7 a).
  { revert Epart.
    repeat match goal with
           | |- context [if ?c then _ else _] => destruct c
           end; intros Epart; apply qpartition_loop_perm in Epart;
      (eapply perm_trans; [exact Epart|]);
      repeat (first [apply Permutation_refl
                    | eapply perm_trans; [apply lean_array_swap_perm|]]). }
  destruct (high <=? x_6); [injection Hrun as <-; exact Hp|].
  destruct (Array_qsort_sort___at_Lean_Elab_InfoTree_smallestTacticStates___spec__3
              f lt x_7 low x_6) as [x_9|] eqn:E1; [|discriminate].
  apply IH in E1. apply IH in Hrun.
  eapply perm_trans; [exact Hrun|]. eapply perm_trans; [exact E1|exact Hp].
Qed.

Lemma smallestTacticStates_perm (t : InfoTree) :
  Permutation (Lean_Elab_InfoTree_smallestTacticStates t)
    (List_filterMap___at_Lean_Elab_InfoTree_smallestTacticStates___spec__1
       (Lean_Elab_InfoTree_smallestTacticStates_tacticLeaves t)).
Proof.
  unfold Lean_Elab_InfoTree_smallestTacticStates,
    Lean_Elab_InfoTree_smallestTacticStates_tacticLeaves. cbv zeta.
  rewrite List_toArrayAux_nil.
  set (a := List_filterMap___at_Lean_Elab_InfoTree_smallestTacticStates___spec__1 _).
  unfold lean_array_get_size.
  pose proof (@Array_qsort_returns _ _ (S (length a - 1 - 0))
                Lean_Elab_InfoTree_smallestTacticStates___lambda__1 a 0 (length a - 1)
                ltac:(lia)) as Hrun.
  now apply qsort_sort_perm in Hrun.
Qed.

End SortPerm.

Section GoalsFacts.
Context `{EI : ExternInhabited}.

Lemma goalsAt_sound (t : InfoTree) (hoverPos : nat) ci ti :
  Lean_Elab_InfoTree_goalsAt_x3f t hoverPos = Some (ci, ti) ->
  exists pos,
    Lean_Syntax_getPos_x3f (ti_stx ti) true = Some pos /\ pos <= hoverPos /\
    exists cs, In (context ci (node (ofTacticInfo ti) cs))
                  (Lean_Elab_InfoTree_smallestTacticStates_tacticLeaves t).
Proof.
  set (ts := Lean_Elab_InfoTree_smallestTacticStates t).
  unfold Lean_Elab_InfoTree_goalsAt_x3f. cbv zeta. fold ts. fold (extents ts).
  rewrite extents_pos_intervals.
  destruct (Array_findIdx_x3f_loop _ _ _ _ _) as [j|] eqn:Ef; [|discriminate].
  intros [= Hr]. apply findIdx_loop_some in Ef.
  destruct Ef as [[_ Hj] [Hin _]].
  rewrite pos_intervals_length in Hj.
  set (d := (instInhabitedNat, instInhabitedNat)) in *.
  unfold lean_array_get in Hr.
  destruct (nth_error ts j) as [[p [ci' ti']]|] eqn:Ej;
    [|apply nth_error_None in Ej; lia].
  rewrite (nth_error_nth _ _ _ Ej) in Hr. cbn in Hr. injection Hr as -> ->.
  destruct (nth_error (pos_intervals ts) j) as [c|] eqn:Ec;
    [|apply nth_error_None in Ec; rewrite pos_intervals_length in Ec; lia].
  rewrite (nth_error_nth _ _ d Ec) in Hin. apply goalsAt_lambda__1_inside in Hin.
  destruct (pos_intervals_nth _ _ Ej Ec) as [Hfst _]. cbn in Hfst.
  apply nth_error_In in Ej. apply smallestTacticStates_positions in Ej.
  destruct Ej as [Hp [_ Hc]]. exists p. unfold inside in Hin.
  split; [exact Hp|]. split; [lia|exact Hc].
Qed.

Lemma goalsAt_before_first (t : InfoTree) (hoverPos : nat) e rest :
  Lean_Elab_InfoTree_smallestTacticStates t = e :: rest ->
  hoverPos < fst e ->
  Lean_Elab_InfoTree_goalsAt_x3f t hoverPos = None.
Proof.
  intros Hts Hlt.
  unfold Lean_Elab_InfoTree_goalsAt_x3f. cbv zeta.
  fold (extents (Lean_Elab_InfoTree_smallestTacticStates t)).
  rewrite extents_pos_intervals, findIdx_loop_none; [reflexivity|].
  intros c Hc. apply In_nth_error in Hc. destruct Hc as [k Hk].
  destruct (nth_error (Lean_Elab_InfoTree_smallestTacticStates t) k) as [ek|] eqn:Ek.
  2:{ apply nth_error_None in Ek.
      assert (Hk' : k < length (pos_intervals (Lean_Elab_InfoTree_smallestTacticStates t)))
        by (apply nth_error_Some; congruence).
      rewrite pos_intervals_length in Hk'. lia. }
  destruct (pos_intervals_nth _ _ Ek Hk) as [Hfst _].
  assert (Hs : fst e <= fst ek).
  { apply (@smallestTacticStates_sorted _ _ t 0 k); [lia| |exact Ek].
    rewrite Hts. reflexivity. }
  destruct (Lean_Elab_InfoTree_goalsAt_x3f___lambda__1 hoverPos c) eqn:El;
    [|reflexivity].
  apply goalsAt_lambda__1_inside in El. unfold inside in El. lia.
Qed.

End GoalsFacts.

(* ================================================================== *)
(** * Properties of the searches and of the goal lookup *)
(* ================================================================== *)

Section SearchProperties.
Context `{EI : ExternInhabited}.

(** X1. The result of [smallestNode?] is the first element of the list
    returned by [smallestNodes], and [None] when that list is empty. *)
Theorem X1_smallestNode_is_head_of_smallestNodes (p : Info -> bool) (t : InfoTree) :
  Lean_Elab_InfoTree_smallestNode_x3f p t
  = hd_error (Lean_Elab_InfoTree_smallestNodes p t).
Proof. symmetry. apply smallestNodes_head. Qed.

(** X2. [smallestNodes] returns exactly the deepest matches, in post-order:
    the nodes that satisfy [p] while no node below them does, each under
    the context wrappers met on the way down. *)
Theorem X2_smallestNodes_deepest_matches (p : Info -> bool) (t : InfoTree) :
  Lean_Elab_InfoTree_smallestNodes p t
  = filter (deepest_match p) (postorder t).
Proof. apply smallestNodes_filter. Qed.

(** X3. Both searches come back empty exactly when no node of the tree
    satisfies the predicate. *)
Theorem X3_not_found_iff_no_match (p : Info -> bool) (t : InfoTree) :
  (Lean_Elab_InfoTree_smallestNodes p t = [] <->
   forall n, In n (postorder t) -> holds_on p n = false) /\
  (Lean_Elab_InfoTree_smallestNode_x3f p t = None <->
   forall n, In n (postorder t) -> holds_on p n = false).
Proof.
  assert (Hm : has_match p t = false <->
               forall n, In n (postorder t) -> holds_on p n = false).
  { unfold has_match. split.
    - intros He n Hn. destruct (holds_on p n) eqn:E; [|reflexivity].
      rewrite <- He. symmetry. apply existsb_exists. now exists n.
    - intros Hall. destruct (existsb (holds_on p) (postorder t)) eqn:E; [|reflexivity].
      apply existsb_exists in E. destruct E as [n [Hn Hp]].
      rewrite (Hall n Hn) in Hp. discriminate. }
  split.
  - rewrite smallestNodes_nil_has_match. exact Hm.
  - rewrite <- smallestNodes_head, <- Hm, <- smallestNodes_nil_has_match.
    destruct (Lean_Elab_InfoTree_smallestNodes p t); simpl; split; congruence.
Qed.

(** X4. An answer of [smallestInfo?] carries an info that satisfies the
    predicate and the context of the wrapper of one of the results of
    [smallestNodes]. *)
Theorem X4_smallestInfo_sound (p : Info -> bool) (t : InfoTree) ci i :
  Lean_Elab_InfoTree_smallestInfo_x3f p t = Some (ci, i) ->
  p i = true /\
  exists cs, In (context ci (node i cs)) (Lean_Elab_InfoTree_smallestNodes p t).
Proof. apply smallestInfo_sound. Qed.

(** X5. On a tree without any context wrapper every query comes back
    empty, whatever the predicate and the offset. *)
Theorem X5_context_free_no_answer (p : Info -> bool) (t : InfoTree) (hoverPos : nat) :
  context_free t = true ->
  Lean_Elab_InfoTree_smallestInfo_x3f p t = None /\
  Lean_Elab_InfoTree_hoverableInfoAt_x3f t hoverPos = None /\
  Lean_Elab_InfoTree_smallestTacticStates t = [] /\
  Lean_Elab_InfoTree_goalsAt_x3f t hoverPos = None.
Proof. apply context_free_no_answer. Qed.

(** X6. An answer of [hoverableInfoAt?] has both positions defined, the
    offset lies in [pos, tailPos), and the info is either a field info,
    whose syntax kind is not examined, or a term info whose expression is
    not a synthetic sorry and whose syntax kind is equal, for [Name.beq],
    to an entry of the allow-list that the code builds: an entry of the
    imported array constant, or one of the nine kinds pushed onto it.  The
    answer is never a tactic info or a macro-expansion info. *)
Theorem X6_hoverableInfoAt_sound (t : InfoTree) (hoverPos : nat) ci i :
  Lean_Elab_InfoTree_hoverableInfoAt_x3f t hoverPos = Some (ci, i) ->
  (exists pos tailPos,
     Lean_Elab_Info_pos_x3f i = Some pos /\
     Lean_Elab_Info_tailPos_x3f i = Some tailPos /\
     pos <= hoverPos < tailPos) /\
  ((exists fi, i = ofFieldInfo fi) \/
   (exists ti k,
      i = ofTermInfo ti /\
      Lean_Expr_isSyntheticSorry (tm_expr ti) = false /\
      Lean_Name_beq (Lean_Syntax_getKind (tm_stx ti)) k = true /\
      (In k supportedRecursors___closed__14 \/
       In k [Lean_identKind; Lean_strLitKind; Lean_charLitKind;
             Lean_numLitKind; Lean_scientificLitKind; Lean_nameLitKind;
             Lean_fieldIdxKind; Lean_interpolatedStrLitKind;
             Lean_interpolatedStrKind]))).
Proof.
  intros Hs. apply hoverableInfoAt_sound in Hs.
  destruct Hs as [pos [tailPos [Hp [Ht [Hin Hk]]]]].
  split; [exists pos, tailPos; auto|].
  destruct i as [ti|ti|mi|fi]; cbn in Hk; try contradiction.
  - right. destruct Hk as [Hsorry [k [Hk Hbeq]]].
    exists ti, k. split; [reflexivity|]. split; [exact Hsorry|].
    split; [exact Hbeq|]. unfold hoverable_kinds in Hk.
    apply in_app_or in Hk. exact Hk.
  - left. exists fi. reflexivity.
Qed.

(** X7. Under the predicate of [hoverableInfoAt?] every ranked candidate
    has both positions defined: its width is [tailPos - pos], positive,
    and never computed from the default of [Option.get!]. *)
Theorem X7_hoverable_candidate_widths (t : InfoTree) (hoverPos : nat) w ci i :
  In (w, (ci, i))
     (candidates (Lean_Elab_InfoTree_hoverableInfoAt_x3f___lambda__1 hoverPos) t) ->
  exists pos tailPos,
    Lean_Elab_Info_pos_x3f i = Some pos /\
    Lean_Elab_Info_tailPos_x3f i = Some tailPos /\
    w = tailPos - pos /\ 0 < w.
Proof. apply hoverable_candidates_widths. Qed.

(** X8. Every cell of [smallestTacticStates] records the start position
    that the accessor gives for the tactic's syntax with
    [originalOnly = true]; the tail position is defined as well, and the
    cell comes from a deepest tactic node of the tree found under the
    cell's context. *)
Theorem X8_smallestTacticStates_positions (t : InfoTree) p ci ti :
  In (p, (ci, ti)) (Lean_Elab_InfoTree_smallestTacticStates t) ->
  Lean_Syntax_getPos_x3f (ti_stx ti) true = Some p /\
  (exists tailPos, Lean_Syntax_getTailPos_x3f (ti_stx ti) true = Some tailPos) /\
  exists cs, In (context ci (node (ofTacticInfo ti) cs))
                (Lean_Elab_InfoTree_smallestTacticStates_tacticLeaves t).
Proof. apply smallestTacticStates_positions. Qed.

(** X9. The sort of [smallestTacticStates] neither loses nor duplicates a
    tactic state: the result is a permutation of the filtered leaves. *)
Theorem X9_smallestTacticStates_permutation (t : InfoTree) :
  Permutation (Lean_Elab_InfoTree_smallestTacticStates t)
    (List_filterMap___at_Lean_Elab_InfoTree_smallestTacticStates___spec__1
       (Lean_Elab_InfoTree_smallestTacticStates_tacticLeaves t)).
Proof. apply smallestTacticStates_perm. Qed.

(** X10. [Array.qsort.sort] on the cells [low .. high] of any array that
    has them returns once the fuel exceeds [high - low]; the result is a
    permutation of the array of the same length, it agrees with the array
    outside [low .. high], and its cells [low .. high] are in ascending
    order of position. *)
Theorem X10_qsort_sort_range (fuel : nat) (a : Array TacticState) (low high : nat) :
  (low < high -> high < length a) ->
  high - low < fuel ->
  exists r,
    Array_qsort_sort___at_Lean_Elab_InfoTree_smallestTacticStates___spec__3
      fuel Lean_Elab_InfoTree_smallestTacticStates___lambda__1 a low high = Some r /\
    length r = length a /\
    Permutation r a /\
    (forall k d, k < low \/ high < k -> nth k r d = nth k a d) /\
    (forall k1 k2 d, low <= k1 <= k2 -> k2 <= high ->
                     fst (nth k1 r d) <= fst (nth k2 r d)).
Proof.
  intros Hlen Hfuel.
  destruct (@Array_qsort_sort_terminates _ _ fuel
              Lean_Elab_InfoTree_smallestTacticStates___lambda__1 a low high Hfuel)
    as [r Hr].
  exists r. split; [exact Hr|].
  pose proof (qsort_sort_perm _ _ _ _ _ Hr) as Hperm.
  apply qsort_sort_spec in Hr; [|exact Hlen].
  destruct Hr as [[Hl [Hout _]] Hsorted].
  split; [exact Hl|]. split; [exact Hperm|]. split.
  - intros k d Hk. specialize (Hout k Hk). unfold lean_array_get in Hout.
    destruct (le_lt_dec (length a) k) as [Hge|Hlt].
    + rewrite !nth_overflow by lia. reflexivity.
    + rewrite (@nth_indep _ r k d Array_qpartition_loop___at_Lean_Elab_InfoTree_smallestTacticStates___spec__4___closed__2) by lia.
      rewrite (@nth_indep _ a k d Array_qpartition_loop___at_Lean_Elab_InfoTree_smallestTacticStates___spec__4___closed__2) by lia.
      exact Hout.
  - intros k1 k2 d Hk1 Hk2.
    destruct (Nat.eq_dec k1 k2) as [->|Hne]; [lia|].
    assert (Hlh : low < high) by lia. specialize (Hlen Hlh).
    specialize (Hsorted k1 k2 Hk1 Hk2). unfold lean_array_get in Hsorted.
    rewrite (@nth_indep _ r k1 d Array_qpartition_loop___at_Lean_Elab_InfoTree_smallestTacticStates___spec__4___closed__2) by lia.
    rewrite (@nth_indep _ r k2 d Array_qpartition_loop___at_Lean_Elab_InfoTree_smallestTacticStates___spec__4___closed__2) by lia.
    exact Hsorted.
Qed.

(** X11. An answer of [goalsAt?] is a deepest tactic node of the tree,
    returned with the context of its wrapper, whose start position is at
    or before the offset. *)
Theorem X11_goalsAt_sound (t : InfoTree) (hoverPos : nat) ci ti :
  Lean_Elab_InfoTree_goalsAt_x3f t hoverPos = Some (ci, ti) ->
  exists pos,
    Lean_Syntax_getPos_x3f (ti_stx ti) true = Some pos /\ pos <= hoverPos /\
    exists cs, In (context ci (node (ofTacticInfo ti) cs))
                  (Lean_Elab_InfoTree_smallestTacticStates_tacticLeaves t).
Proof. apply goalsAt_sound. Qed.

(** X12. [goalsAt?] classifies offsets: an offset inside the interval of
    the [j]-th sorted tactic state resolves to that state. *)
Theorem X12_goalsAt_classifies (t : InfoTree) (hoverPos j : nat) e c :
  nth_error (Lean_Elab_InfoTree_smallestTacticStates t) j = Some e ->
  nth_error (pos_intervals (Lean_Elab_InfoTree_smallestTacticStates t)) j = Some c ->
  inside hoverPos c ->
  Lean_Elab_InfoTree_goalsAt_x3f t hoverPos = Some (snd e).
Proof. apply goalsAt_classifies. Qed.

(** X13. An offset before the start of the first sorted tactic state
    resolves to no goal. *)
Theorem X13_goalsAt_before_first (t : InfoTree) (hoverPos : nat) e rest :
  Lean_Elab_InfoTree_smallestTacticStates t = e :: rest ->
  hoverPos < fst e ->
  Lean_Elab_InfoTree_goalsAt_x3f t hoverPos = None.
Proof. apply goalsAt_before_first. Qed.

Lemma deepest_match_fixed (p : Info -> bool) (r : InfoTree) :
  deepest_match p r = true -> Lean_Elab_InfoTree_smallestNodes p r = [r].
Proof.
  induction r as [ci r IH|i cs _|m] using InfoTree_ind'; intros Hd.
  - rewrite deepest_match_context in Hd.
    cbn [Lean_Elab_InfoTree_smallestNodes].
    unfold List_map___at_Lean_Elab_InfoTree_smallestNodes___spec__1.
    rewrite (IH Hd). reflexivity.
  - unfold deepest_match, holds_on, children_of in Hd. cbn [unwrap] in Hd.
    apply andb_prop in Hd. destruct Hd as [Hp Hnone].
    apply negb_true_iff in Hnone.
    rewrite smallestNodes_node.
    assert (Hc : concat (map (Lean_Elab_InfoTree_smallestNodes p) cs) = []).
    { induction cs as [|c cs IHcs]; cbn; [reflexivity|].
      cbn [existsb] in Hnone. apply orb_false_iff in Hnone.
      destruct Hnone as [Hc Hrest].
      apply smallestNodes_nil_has_match in Hc. rewrite Hc, (IHcs Hrest).
      reflexivity. }
    rewrite Hc, Hp. reflexivity.
  - discriminate.
Qed.

(** X19. Every result of [smallestNodes] is a fixed point of both
    searches: searching the result again returns the result itself, and
    nothing else. *)
Theorem X19_results_are_fixed_points (p : Info -> bool) (t r : InfoTree) :
  In r (Lean_Elab_InfoTree_smallestNodes p t) ->
  Lean_Elab_InfoTree_smallestNodes p r = [r] /\
  Lean_Elab_InfoTree_smallestNode_x3f p r = Some r.
Proof.
  intros Hin. rewrite smallestNodes_filter in Hin.
  apply filter_In in Hin. destruct Hin as [_ Hd].
  pose proof (deepest_match_fixed p r Hd) as Hfix.
  split; [exact Hfix|].
  rewrite <- smallestNodes_head, Hfix. reflexivity.
Qed.

End SearchProperties.

(* ================================================================== *)
(** * The properties on sample inputs *)
(* ================================================================== *)

Module MoreExamples.
Import Model Samples.

(** X4 on [wide_narrow]: the answer satisfies the predicate and is the
    info of a result of [smallestNodes]. *)
Lemma X4_witness :
  Lean_Elab_InfoTree_smallestInfo_x3f always wide_narrow = Some (3, infoB) /\
  always infoB = true /\
  exists cs, In (context 3 (node infoB cs))
                (Lean_Elab_InfoTree_smallestNodes always wide_narrow).
Proof.
  split; [reflexivity|].
  apply X4_smallestInfo_sound with (t := wide_narrow).
  reflexivity.
Defined.

(** X5 on [nested_match], which holds no context wrapper. *)
Lemma X5_witness :
  context_free nested_match = true /\
  Lean_Elab_InfoTree_smallestInfo_x3f always nested_match = None /\
  Lean_Elab_InfoTree_hoverableInfoAt_x3f nested_match 3 = None /\
  Lean_Elab_InfoTree_smallestTacticStates nested_match = [] /\
  Lean_Elab_InfoTree_goalsAt_x3f nested_match 3 = None.
Proof.
  split; [reflexivity|].
  apply X5_context_free_no_answer. reflexivity.
Defined.

(** X6 on [hover_tree] at offset 7: a term info of kind [ident]. *)
Lemma X6_witness :
  Lean_Elab_InfoTree_hoverableInfoAt_x3f hover_tree 7 = Some (4, hover_info) /\
  (exists pos tailPos,
     Lean_Elab_Info_pos_x3f hover_info = Some pos /\
     Lean_Elab_Info_tailPos_x3f hover_info = Some tailPos /\
     pos <= 7 < tailPos) /\
  ((exists fi, hover_info = ofFieldInfo fi) \/
   (exists ti k,
      hover_info = ofTermInfo ti /\
      Lean_Expr_isSyntheticSorry (tm_expr ti) = false /\
      Lean_Name_beq (Lean_Syntax_getKind (tm_stx ti)) k = true /\
      (In k supportedRecursors___closed__14 \/
       In k [Lean_identKind; Lean_strLitKind; Lean_charLitKind;
             Lean_numLitKind; Lean_scientificLitKind; Lean_nameLitKind;
             Lean_fieldIdxKind; Lean_interpolatedStrLitKind;
             Lean_interpolatedStrKind]))).
Proof.
  split; [reflexivity|].
  apply X6_hoverableInfoAt_sound with (t := hover_tree) (ci := 4).
  reflexivity.
Defined.

(** X7 on [hover_tree] at offset 7: the candidate has width [10 - 5]. *)
Lemma X7_witness :
  In (5, (4, hover_info))
     (candidates (Lean_Elab_InfoTree_hoverableInfoAt_x3f___lambda__1 7) hover_tree) /\
  exists pos tailPos,
    Lean_Elab_Info_pos_x3f hover_info = Some pos /\
    Lean_Elab_Info_tailPos_x3f hover_info = Some tailPos /\
    5 = tailPos - pos /\ 0 < 5.
Proof.
  assert (Hin : In (5, (4, hover_info))
                   (candidates (Lean_Elab_InfoTree_hoverableInfoAt_x3f___lambda__1 7)
                      hover_tree))
    by (left; reflexivity).
  split; [exact Hin|].
  exact (X7_hoverable_candidate_widths hover_tree 7 5 4 hover_info Hin).
Defined.

(** X8 on [late_tactics]: the state of the tactic at [8,12). *)
Lemma X8_witness :
  In (8, (1, tacticInfoAt 8 12)) (Lean_Elab_InfoTree_smallestTacticStates late_tactics) /\
  Lean_Syntax_getPos_x3f (ti_stx (tacticInfoAt 8 12)) true = Some 8 /\
  (exists tailPos,
     Lean_Syntax_getTailPos_x3f (ti_stx (tacticInfoAt 8 12)) true = Some tailPos) /\
  exists cs, In (context 1 (node (ofTacticInfo (tacticInfoAt 8 12)) cs))
                (Lean_Elab_InfoTree_smallestTacticStates_tacticLeaves late_tactics).
Proof.
  assert (Hin : In (8, (1, tacticInfoAt 8 12))
                   (Lean_Elab_InfoTree_smallestTacticStates late_tactics))
    by (right; left; reflexivity).
  split; [exact Hin|].
  exact (X8_smallestTacticStates_positions late_tactics 8 1 (tacticInfoAt 8 12) Hin).
Defined.

(** X10 on the cells 1 .. 3 of [unsorted_states] with fuel 3. *)
Lemma X10_witness :
  exists r,
    Array_qsort_sort___at_Lean_Elab_InfoTree_smallestTacticStates___spec__3
      3 Lean_Elab_InfoTree_smallestTacticStates___lambda__1 unsorted_states 1 3 = Some r /\
    length r = length unsorted_states /\
    Permutation r unsorted_states /\
    (forall k d, k < 1 \/ 3 < k -> nth k r d = nth k unsorted_states d) /\
    (forall k1 k2 d, 1 <= k1 <= k2 -> k2 <= 3 ->
                     fst (nth k1 r d) <= fst (nth k2 r d)).
Proof.
  apply (X10_qsort_sort_range (fuel := 3) unsorted_states (low := 1) (high := 3)).
  - intros _. simpl. lia.
  - lia.
Defined.

(** X11 on [late_tactics] at offset 9. *)
Lemma X11_witness :
  Lean_Elab_InfoTree_goalsAt_x3f late_tactics 9 = Some (1, tacticInfoAt 8 12) /\
  exists pos,
    Lean_Syntax_getPos_x3f (ti_stx (tacticInfoAt 8 12)) true = Some pos /\ pos <= 9 /\
    exists cs, In (context 1 (node (ofTacticInfo (tacticInfoAt 8 12)) cs))
                  (Lean_Elab_InfoTree_smallestTacticStates_tacticLeaves late_tactics).
Proof.
  split; [reflexivity|].
  apply X11_goalsAt_sound with (t := late_tactics) (ci := 1).
  reflexivity.
Defined.

(** X12 on [late_tactics]: offset 5 lies in the interval [3,8) of the
    first sorted state. *)
Lemma X12_witness :
  inside 5 (3, 8) /\
  Lean_Elab_InfoTree_goalsAt_x3f late_tactics 5 = Some (1, tacticInfoAt 3 8).
Proof.
  assert (Hin : inside 5 (3, 8)) by (unfold inside; simpl; lia).
  split; [exact Hin|].
  apply (X12_goalsAt_classifies late_tactics (hoverPos := 5) 0
           (e := stateAt 1 3 8) (c := (3, 8))).
  - reflexivity.
  - reflexivity.
  - exact Hin.
Defined.

(** X13 on [late_tactics]: offset 2 lies before the first tactic. *)
Lemma X13_witness :
  2 < 3 /\ Lean_Elab_InfoTree_goalsAt_x3f late_tactics 2 = None.
Proof.
  split; [lia|].
  apply (X13_goalsAt_before_first late_tactics (hoverPos := 2)
           (e := stateAt 1 3 8) (rest := [stateAt 1 8 12])).
  - reflexivity.
  - simpl. lia.
Defined.

(** X19 on [wide_narrow]: the node at [2,5) found under the context. *)
Lemma X19_witness :
  In (context 3 (node infoB [])) (Lean_Elab_InfoTree_smallestNodes always wide_narrow) /\
  Lean_Elab_InfoTree_smallestNodes always (context 3 (node infoB []))
  = [context 3 (node infoB [])] /\
  Lean_Elab_InfoTree_smallestNode_x3f always (context 3 (node infoB []))
  = Some (context 3 (node infoB [])).
Proof.
  assert (Hin : In (context 3 (node infoB []))
                   (Lean_Elab_InfoTree_smallestNodes always wide_narrow))
    by (right; left; reflexivity).
  split; [exact Hin|].
  exact (X19_results_are_fixed_points always wide_narrow
           (context 3 (node infoB [])) Hin).
Defined.

End MoreExamples.

(* ================================================================== *)
(** * The trie walks: index order, bounds, and agreement with the list *)
(* ================================================================== *)

Module TrieFacts.
Import Trie.

Section WordFacts.

Lemma lean_usize_of_nat_small (i : nat) :
  (N.of_nat i < usize_size)%N -> lean_usize_of_nat i = N.of_nat i.
Proof. intros Hi. unfold lean_usize_of_nat. apply N.mod_small. exact Hi. Qed.

Lemma pow32 (h : nat) : 2 ^ (5 * h) = 32 ^ h.
Proof. rewrite Nat.pow_mul_r. reflexivity. Qed.

Lemma pow32_pos (h : nat) : 0 < 32 ^ h.
Proof. apply Nat.neq_0_lt_0. apply Nat.pow_nonzero. discriminate. Qed.

Lemma div_mul_mod (i m : nat) : i / m * m <= i /\ i - i / m * m = i mod m.
Proof.
  pose proof (Nat.div_mod_eq i m) as Hdm. rewrite (Nat.mul_comm m) in Hdm. lia.
Qed.

Lemma shift_ok (h : nat) : h <= 12 -> (N.of_nat (5 * h) <? 64)%N = true.
Proof. intros Hh. apply N.ltb_lt. lia. Qed.

Lemma usize_shift_right_nat (i h : nat) :
  h <= 12 ->
  usize_shift_right (N.of_nat i) (N.of_nat (5 * h))
  = Some (N.of_nat (i / 32 ^ h)).
Proof.
  intros Hh. unfold usize_shift_right. rewrite (shift_ok Hh).
  rewrite N.shiftr_div_pow2. f_equal.
  rewrite <- pow32. rewrite Nat2N.inj_div, Nat2N.inj_pow. reflexivity.
Qed.

Lemma usize_shift_left_one (h : nat) :
  h <= 12 ->
  usize_shift_left 1%N (N.of_nat (5 * h)) = Some (2 ^ N.of_nat (5 * h))%N.
Proof.
  intros Hh. unfold usize_shift_left. rewrite (shift_ok Hh).
  rewrite N.shiftl_1_l. f_equal. apply N.mod_small.
  unfold usize_size. apply N.pow_lt_mono_r; lia.
Qed.

Lemma usize_mask_nat (i h : nat) :
  h <= 12 ->
  usize_land (N.of_nat i) (usize_sub (2 ^ N.of_nat (5 * h))%N 1%N)
  = N.of_nat (i mod 32 ^ h).
Proof.
  intros Hh. unfold usize_land, usize_sub.
  assert (Hlt : (2 ^ N.of_nat (5 * h) < usize_size)%N)
    by (unfold usize_size; apply N.pow_lt_mono_r; lia).
  assert (Hpos : (0 < 2 ^ N.of_nat (5 * h))%N)
    by (apply N.neq_0_lt_0, N.pow_nonzero; discriminate).
  replace (2 ^ N.of_nat (5 * h) + usize_size - 1)%N
    with (N.pred (2 ^ N.of_nat (5 * h)) + 1 * usize_size)%N by lia.
  rewrite N.Div0.mod_add. rewrite N.mod_small by lia.
  rewrite <- N.ones_equiv, N.land_ones.
  rewrite <- pow32, Nat2N.inj_mod, Nat2N.inj_pow. reflexivity.
Qed.

Lemma usize_sub_shift (h : nat) :
  h <= 12 -> usize_sub (N.of_nat (5 * S h)) 5%N = N.of_nat (5 * h).
Proof.
  intros Hh. unfold usize_sub.
  replace (N.of_nat (5 * S h) + usize_size - 5)%N
    with (N.of_nat (5 * h) + 1 * usize_size)%N by lia.
  rewrite N.Div0.mod_add. apply N.mod_small. unfold usize_size. 
  apply N.lt_le_trans with (m := 64%N); [lia|]. vm_compute. discriminate.
Qed.

End WordFacts.

Section NodeFacts.
Variable A : Type.

Lemma PersistentArrayNode_ind' (P : PersistentArrayNode A -> Prop) :
  (forall cs, Forall P cs -> P (node cs)) ->
  (forall vs, P (leaf vs)) ->
  forall n, P n.
Proof.
  intros Hnode Hleaf. fix IH 1. intros [cs|vs].
  - apply Hnode. induction cs as [|c cs IHcs]; constructor; [apply IH|exact IHcs].
  - apply Hleaf.
Qed.

Lemma height_child (cs : list (PersistentArrayNode A)) c :
  In c cs -> height c < height (node cs).
Proof.
  intros Hin. simpl. apply Nat.lt_succ_r.
  assert (Hall : Forall (fun k => k <= list_max (map (@height A) cs)) (map (@height A) cs))
    by (apply list_max_le; lia).
  rewrite Forall_forall in Hall. apply Hall. apply in_map. exact Hin.
Qed.

Lemma in_firstn (B : Type) (x : B) k l : In x (firstn k l) -> In x l.
Proof.
  intros Hx. rewrite <- (firstn_skipn k l). apply in_or_app. left. exact Hx.
Qed.

Lemma in_skipn (B : Type) (x : B) k l : In x (skipn k l) -> In x l.
Proof.
  intros Hx. rewrite <- (firstn_skipn k l). apply in_or_app. right. exact Hx.
Qed.

Lemma in_firstn_le (B : Type) (x : B) k k' l :
  k <= k' -> In x (firstn k l) -> In x (firstn k' l).
Proof.
  intros Hk Hx. replace k with (Nat.min k k') in Hx by lia.
  rewrite <- firstn_firstn in Hx. eapply in_firstn; exact Hx.
Qed.

Lemma length_concat_uniform (m : nat) (l : list (list A)) :
  Forall (fun b => length b = m) l -> length (concat l) = length l * m.
Proof.
  induction 1 as [|b l Hb _ IH]; simpl; [reflexivity|].
  rewrite length_app, IH, Hb. lia.
Qed.

Lemma full_spec (h : nat) : forall n : PersistentArrayNode A,
  full h n = true ->
  length (toListNode n) = 32 ^ S h /\ radix h n = true.
Proof.
  induction h as [|h IH]; intros [cs|vs] Hf; simpl in Hf; try discriminate.
  - apply Nat.eqb_eq in Hf. simpl. rewrite Hf. split; reflexivity.
  - apply andb_prop in Hf. destruct Hf as [Hlen Hall].
    apply Nat.eqb_eq in Hlen. rewrite forallb_forall in Hall.
    split.
    + cbn [toListNode]. rewrite length_concat_uniform with (m := 32 ^ S h).
      * rewrite length_map, Hlen. rewrite (Nat.pow_succ_r' 32 (S h)). reflexivity.
      * apply Forall_forall. intros b Hb. apply in_map_iff in Hb.
        destruct Hb as [c [<- Hc]]. apply IH, Hall, Hc.
    + cbn [radix]. rewrite Hlen. simpl Nat.leb. rewrite !andb_true_iff. 
      split; [split; [reflexivity|]|].
      * apply forallb_forall. intros c Hc. apply Hall.
        eapply in_firstn; exact Hc.
      * apply forallb_forall. intros c Hc. apply IH, Hall.
        eapply in_skipn; exact Hc.
Qed.

Lemma radix_bound (h : nat) : forall n : PersistentArrayNode A,
  radix h n = true -> length (toListNode n) <= 32 ^ S h.
Proof.
  induction h as [|h IH]; intros [cs|vs] Hr; simpl in Hr; try discriminate.
  - apply Nat.leb_le in Hr. simpl. lia.
  - rewrite !andb_true_iff in Hr. destruct Hr as [[Hlen Hfront] Hlast].
    apply Nat.leb_le in Hlen. rewrite forallb_forall in Hfront, Hlast.
    cbn [toListNode].
    rewrite <- (firstn_skipn (length cs - 1) cs) at 1.
    rewrite map_app, concat_app, length_app.
    rewrite (Nat.pow_succ_r' 32 (S h)).
    set (m := 32 ^ S h) in *.
    rewrite length_concat_uniform with (m := m).
    2:{ apply Forall_forall. intros b Hb. apply in_map_iff in Hb.
        destruct Hb as [c [<- Hc]]. apply full_spec, Hfront, Hc. }
    rewrite length_map, length_firstn.
    assert (Hl : length (concat (map (@toListNode A) (skipn (length cs - 1) cs)))
                 <= length (skipn (length cs - 1) cs) * m).
    { clear Hfront. 
      induction (skipn (length cs - 1) cs) as [|c l IHl]; cbn [map concat length]; [lia|].
      rewrite length_app. specialize (IH c (Hlast c (or_introl eq_refl))).
      assert (length (concat (map (@toListNode A) l)) <= length l * m)
        by (apply IHl; intros x Hx; apply Hlast; right; exact Hx).
      lia. }
    rewrite length_skipn in Hl.
    assert (Hm : 0 < m) by apply pow32_pos. nia.
Qed.

(** The child that holds index [i] of a radix node. *)
Lemma radix_child (h : nat) (cs : list (PersistentArrayNode A)) (i : nat) :
  radix (S h) (node cs) = true ->
  i < length (toListNode (node cs)) ->
  exists pre c post,
    cs = pre ++ c :: post /\
    length pre = i / 32 ^ S h /\
    radix h c = true /\
    i mod 32 ^ S h < length (toListNode c) /\
    length (concat (map (@toListNode A) pre)) = (i / 32 ^ S h) * 32 ^ S h.
Proof.
  intros Hr Hi. cbn [radix] in Hr.
  rewrite !andb_true_iff in Hr. destruct Hr as [[Hlen Hfront] Hlast].
  rewrite forallb_forall in Hfront, Hlast.
  set (m := 32 ^ S h) in *.
  assert (Hm : 0 < m) by apply pow32_pos.
  cbn [toListNode] in Hi.
  assert (Hfl : forall k, k <= length cs - 1 ->
                length (concat (map (@toListNode A) (firstn k cs))) = k * m).
  { intros k Hk. rewrite length_concat_uniform with (m := m).
    - rewrite length_map, length_firstn. rewrite Nat.min_l by lia. reflexivity.
    - apply Forall_forall. intros b Hb. apply in_map_iff in Hb.
      destruct Hb as [c [<- Hc]]. apply full_spec, Hfront.
      eapply in_firstn_le; [exact Hk|exact Hc]. }
  destruct (Nat.eq_dec (length cs) 0) as [H0|Hne].
  { destruct cs; [simpl in Hi; lia|discriminate]. }
  (* the last child *)
  assert (Hsk : exists cl, skipn (length cs - 1) cs = [cl]).
  { pose proof (length_skipn (length cs - 1) cs) as Hl.
    destruct (skipn (length cs - 1) cs) as [|cl [|? ?]]; simpl in Hl; try lia.
    now exists cl. }
  destruct Hsk as [cl Hcl].
  assert (Hcs : cs = firstn (length cs - 1) cs ++ [cl])
    by (rewrite <- Hcl; symmetry; apply firstn_skipn).
  assert (Hrl : radix h cl = true) by (apply Hlast; rewrite Hcl; left; reflexivity).
  assert (Htot : length (concat (map (@toListNode A) cs))
                 = (length cs - 1) * m + length (toListNode cl)).
  { rewrite Hcs at 1. rewrite map_app, concat_app, length_app.
    rewrite Hfl by lia. simpl. rewrite app_nil_r. reflexivity. }
  pose proof (radix_bound _ _ Hrl) as Hb. fold m in Hb.
  assert (Hj : i / m <= length cs - 1).
  { apply Nat.lt_succ_r. apply Nat.Div0.div_lt_upper_bound. nia. }
  pose proof (Nat.div_mod_eq i m) as Hdm.
  destruct (Nat.eq_dec (i / m) (length cs - 1)) as [Heq|Hlt].
  - exists (firstn (length cs - 1) cs), cl, [].
    split; [exact Hcs|]. split; [rewrite length_firstn; lia|].
    split; [exact Hrl|]. split; [nia|].
    rewrite Heq. apply Hfl. lia.
  - assert (Hjl : i / m < length cs - 1) by lia.
    destruct (nth_error cs (i / m)) as [c|] eqn:Hc.
    2:{ apply nth_error_None in Hc. lia. }
    apply nth_error_split in Hc. destruct Hc as [pre [post [Hsplit Hpre]]].
    exists pre, c, post. split; [exact Hsplit|]. split; [exact Hpre|].
    assert (Hfc : full h c = true).
    { apply Hfront. apply in_firstn_le with (k := length pre + 1); [lia|].
      rewrite Hsplit at 1. rewrite firstn_app.
      replace (length pre + 1 - length pre) with 1 by lia.
      apply in_or_app. right. left. reflexivity. }
    destruct (full_spec _ _ Hfc) as [Hlc Hrc]. fold m in Hlc.
    split; [exact Hrc|]. split.
    + rewrite Hlc. apply Nat.mod_upper_bound. lia.
    + rewrite <- Hpre. replace pre with (firstn (length pre) cs) at 1.
      * apply Hfl. lia.
      * rewrite Hsplit. rewrite firstn_app, Nat.sub_diag, firstn_all. simpl.
        apply app_nil_r.
Qed.

End NodeFacts.

Section MapFacts.
Variables A B : Type.
Variable f : A -> option B.
Variable g : A -> B.

Lemma Array_mapMUnsafe_map_total (a : Array A) :
  (forall x, In x a -> f x = Some (g x)) ->
  Array_mapMUnsafe_map f a = Some (map g a).
Proof.
  induction a as [|x a IH]; intros Hf; cbn; [reflexivity|].
  rewrite Hf by (left; reflexivity).
  rewrite IH by (intros y Hy; apply Hf; right; exact Hy). reflexivity.
Qed.

Lemma in_toListNode_child (cs : list (PersistentArrayNode A)) c x :
  In c cs -> In x (toListNode c) -> In x (toListNode (node cs)).
Proof.
  intros Hc Hx. cbn. apply in_concat. exists (toListNode c).
  split; [apply in_map; exact Hc|exact Hx].
Qed.

Lemma mapMAux_total (n : PersistentArrayNode A) :
  (forall x, In x (toListNode n) -> f x = Some (g x)) ->
  Std_PersistentArray_mapMAux f n = Some (map_node g n).
Proof.
  induction n as [cs IH|vs] using PersistentArrayNode_ind'; intros Hf; cbn.
  - assert (Hcs : Array_mapMUnsafe_map (Std_PersistentArray_mapMAux f) cs
                  = Some (map (map_node g) cs)).
    { revert IH Hf. induction cs as [|c cs IHcs]; intros IH Hf; cbn; [reflexivity|].
      inversion IH as [|? ? Hc Hrest]; subst.
      rewrite Hc.
      2:{ intros x Hx. apply Hf. eapply in_toListNode_child; [left; reflexivity|exact Hx]. }
      rewrite IHcs; [reflexivity|exact Hrest|].
      intros x Hx. apply Hf. cbn in *. apply in_or_app. right. exact Hx. }
    rewrite Hcs. reflexivity.
  - rewrite Array_mapMUnsafe_map_total by exact Hf. reflexivity.
Qed.

Lemma map_node_toListNode (n : PersistentArrayNode A) :
  toListNode (map_node g n) = map g (toListNode n).
Proof.
  induction n as [cs IH|vs] using PersistentArrayNode_ind'; cbn; [|reflexivity].
  rewrite concat_map, !map_map. f_equal.
  apply map_ext_in. intros c Hc. rewrite Forall_forall in IH. apply IH, Hc.
Qed.

Lemma map_node_height (n : PersistentArrayNode A) :
  height (map_node g n) = height n.
Proof.
  induction n as [cs IH|vs] using PersistentArrayNode_ind'; cbn; [|reflexivity].
  f_equal. rewrite map_map. f_equal.
  apply map_ext_in. intros c Hc. rewrite Forall_forall in IH. apply IH, Hc.
Qed.

Lemma map_node_full (h : nat) : forall n : PersistentArrayNode A,
  full h (map_node g n) = full h n.
Proof.
  induction h as [|h IH]; intros [cs|vs]; cbn; try reflexivity.
  - rewrite length_map. reflexivity.
  - rewrite length_map. f_equal.
    induction cs as [|c cs IHcs]; cbn; [reflexivity|]. rewrite IH, IHcs. reflexivity.
Qed.

Lemma map_node_radix (h : nat) : forall n : PersistentArrayNode A,
  radix h (map_node g n) = radix h n.
Proof.
  induction h as [|h IH]; intros [cs|vs]; cbn; try reflexivity.
  - rewrite length_map. reflexivity.
  - rewrite length_map. rewrite firstn_map, skipn_map. f_equal; [f_equal|].
    + induction (firstn (length cs - 1) cs) as [|c l IHl]; cbn; [reflexivity|].
      rewrite map_node_full, IHl. reflexivity.
    + induction (skipn (length cs - 1) cs) as [|c l IHl]; cbn; [reflexivity|].
      rewrite IH, IHl. reflexivity.
Qed.

Lemma map_trie_toList (t : PersistentArray A) :
  toList (map_trie g t) = map g (toList t).
Proof.
  unfold toList, map_trie; cbn.
  rewrite map_node_toListNode, map_app. reflexivity.
Qed.

Lemma map_trie_well_formed (t : PersistentArray A) :
  well_formed t -> well_formed (map_trie g t).
Proof.
  intros [h [Hh [Hs [Hr [Ht [Hb Hsz]]]]]]. exists h.
  rewrite map_trie_toList. cbn.
  rewrite map_node_radix, map_node_toListNode, !length_map. auto 10.
Qed.

Lemma mapM_total (t : PersistentArray A) :
  (forall x, In x (toList t) -> f x = Some (g x)) ->
  Std_PersistentArray_mapM f t = Some (map_trie g t).
Proof.
  intros Hf. unfold Std_PersistentArray_mapM, toList in *.
  rewrite mapMAux_total by (intros x Hx; apply Hf, in_or_app; left; exact Hx).
  rewrite Array_mapMUnsafe_map_total
    by (intros x Hx; apply Hf, in_or_app; right; exact Hx).
  reflexivity.
Qed.

End MapFacts.

Section FoldFacts.
Variables A B : Type.
Variable f : B -> A -> B.
Variable default_node : PersistentArrayNode A.
Variable def : A.

Lemma Array_foldlMUnsafe_from (a : Array A) (init : B) (start : nat) :
  Array_foldlMUnsafe f init a start (lean_array_get_size a)
  = fold_left f (skipn start a) init.
Proof.
  unfold Array_foldlMUnsafe, lean_array_get_size.
  destruct (start <? length a) eqn:Hlt.
  - rewrite Nat.leb_refl. rewrite firstn_all2; [reflexivity|].
    rewrite length_skipn. lia.
  - apply Nat.ltb_ge in Hlt. rewrite skipn_all2 by lia. reflexivity.
Qed.

Lemma Array_foldlMUnsafe_run_from {C} (k : B -> C -> option B) (a : Array C)
    (init : B) (start : nat) :
  Array_foldlMUnsafe_run k init a start (lean_array_get_size a)
  = Array_foldlMUnsafe_fold k (skipn start a) init.
Proof.
  unfold Array_foldlMUnsafe_run, lean_array_get_size.
  destruct (start <? length a) eqn:Hlt.
  - rewrite Nat.leb_refl. rewrite firstn_all2; [reflexivity|].
    rewrite length_skipn. lia.
  - apply Nat.ltb_ge in Hlt. rewrite skipn_all2 by lia. reflexivity.
Qed.

Lemma Array_foldlMUnsafe_fold_nodes (k : B -> PersistentArrayNode A -> option B)
    (cs : list (PersistentArrayNode A)) :
  (forall c acc, In c cs -> k acc c = Some (fold_left f (toListNode c) acc)) ->
  forall acc,
    Array_foldlMUnsafe_fold k cs acc = Some (fold_left f (concat (map (@toListNode A) cs)) acc).
Proof.
  induction cs as [|c cs IH]; intros Hk acc; cbn; [reflexivity|].
  rewrite Hk by (left; reflexivity). rewrite fold_left_app.
  apply IH. intros c' acc' Hc'. apply Hk. right. exact Hc'.
Qed.

Lemma foldlMAux_spec (n : PersistentArrayNode A) :
  forall fuel acc,
    height n < fuel ->
    Std_PersistentArray_foldlMAux f fuel n acc
    = Some (fold_left f (toListNode n) acc).
Proof.
  induction n as [cs IH|vs] using PersistentArrayNode_ind';
    intros [|fuel] acc Hfuel; try lia; cbn [Std_PersistentArray_foldlMAux].
  - rewrite Array_foldlMUnsafe_run_from. cbn [skipn toListNode].
    apply Array_foldlMUnsafe_fold_nodes. intros c acc' Hc.
    rewrite Forall_forall in IH. apply IH; [exact Hc|].
    pose proof (height_child _ _ Hc). lia.
  - rewrite Array_foldlMUnsafe_from. reflexivity.
Qed.

Lemma foldlFromMAux_spec (h : nat) :
  forall fuel (n : PersistentArrayNode A) i acc,
    radix h n = true -> h <= 12 -> height n < fuel ->
    i < length (toListNode n) -> (N.of_nat i < usize_size)%N ->
    Std_PersistentArray_foldlFromMAux f default_node fuel n
      (N.of_nat i) (N.of_nat (5 * h)) acc
    = Some (fold_left f (skipn i (toListNode n)) acc).
Proof.
  induction h as [|h IH]; intros [|fuel] [cs|vs] i acc Hr Hh Hfuel Hi Hb;
    try lia; try discriminate; cbn [Std_PersistentArray_foldlFromMAux].
  - unfold lean_usize_to_nat. rewrite Nat2N.id, Array_foldlMUnsafe_from.
    reflexivity.
  - rewrite (usize_shift_right_nat i Hh), (usize_shift_left_one Hh).
    cbv zeta. rewrite (usize_mask_nat i Hh), (usize_sub_shift (h := h)) by lia.
    unfold lean_usize_to_nat. rewrite Nat2N.id.
    destruct (@radix_child _ h cs i Hr Hi)
      as [pre [c [post [Hcs [Hpre [Hrc [Hic Hlp]]]]]]].
    assert (Hget : lean_array_get default_node cs (i / 32 ^ S h) = c).
    { unfold lean_array_get. rewrite Hcs, app_nth2 by lia.
      rewrite Hpre, Nat.sub_diag. reflexivity. }
    rewrite Hget.
    assert (Hhc : height c < fuel).
    { assert (In c cs) by (rewrite Hcs; apply in_or_app; right; left; reflexivity).
      pose proof (height_child _ _ H). lia. }
    rewrite IH; [|exact Hrc|lia|exact Hhc|exact Hic|].
    2:{ eapply N.le_lt_trans; [|exact Hb]. 
        assert (i mod 32 ^ S h <= i) by (apply Nat.Div0.mod_le). lia. }
    rewrite Array_foldlMUnsafe_run_from.
    assert (Hsk : skipn (i / 32 ^ S h + 1) cs = post).
    { rewrite Hcs. rewrite skipn_app. rewrite skipn_all2 by lia.
      replace (i / 32 ^ S h + 1 - length pre) with 1 by lia. reflexivity. }
    rewrite Hsk.
    rewrite Array_foldlMUnsafe_fold_nodes.
    2:{ intros c' acc' Hc'. apply foldlMAux_spec.
        assert (In c' cs) by (rewrite Hcs; apply in_or_app; right; right; exact Hc').
        pose proof (height_child _ _ H). lia. }
    assert (Hlist : skipn i (toListNode (node cs))
                    = skipn (i mod 32 ^ S h) (toListNode c)
                      ++ concat (map (@toListNode A) post)).
    { cbn [toListNode]. rewrite Hcs, map_app, concat_app.
      cbn [map concat]. destruct (div_mul_mod i (32 ^ S h)) as [Hle Hmod].
      rewrite skipn_app, skipn_all2 by lia.
      rewrite Hlp, Hmod. cbn [app].
      rewrite skipn_app.
      replace (i mod 32 ^ S h - length (toListNode c)) with 0 by lia.
      reflexivity. }
    rewrite Hlist, fold_left_app. reflexivity.
Qed.

Lemma getAux_spec (h : nat) :
  forall fuel (n : PersistentArrayNode A) i,
    radix h n = true -> h <= 12 -> height n < fuel ->
    i < length (toListNode n) -> (N.of_nat i < usize_size)%N ->
    Std_PersistentArray_getAux default_node def fuel n
      (N.of_nat i) (N.of_nat (5 * h))
    = Some (nth i (toListNode n) def).
Proof.
  induction h as [|h IH]; intros [|fuel] [cs|vs] i Hr Hh Hfuel Hi Hb;
    try lia; try discriminate; cbn [Std_PersistentArray_getAux].
  - unfold lean_usize_to_nat. rewrite Nat2N.id. reflexivity.
  - rewrite (usize_shift_right_nat i Hh), (usize_shift_left_one Hh).
    cbv zeta. rewrite (usize_mask_nat i Hh), (usize_sub_shift (h := h)) by lia.
    unfold lean_usize_to_nat. rewrite Nat2N.id.
    destruct (@radix_child _ h cs i Hr Hi)
      as [pre [c [post [Hcs [Hpre [Hrc [Hic Hlp]]]]]]].
    assert (Hget : lean_array_get default_node cs (i / 32 ^ S h) = c).
    { unfold lean_array_get. rewrite Hcs, app_nth2 by lia.
      rewrite Hpre, Nat.sub_diag. reflexivity. }
    rewrite Hget.
    assert (Hhc : height c < fuel).
    { assert (In c cs) by (rewrite Hcs; apply in_or_app; right; left; reflexivity).
      pose proof (height_child _ _ H). lia. }
    rewrite IH; [|exact Hrc|lia|exact Hhc|exact Hic|].
    2:{ eapply N.le_lt_trans; [|exact Hb]. 
        assert (i mod 32 ^ S h <= i) by (apply Nat.Div0.mod_le). lia. }
    f_equal. cbn [toListNode]. rewrite Hcs, map_app, concat_app.
    cbn [map concat]. destruct (div_mul_mod i (32 ^ S h)) as [Hle Hmod].
    rewrite app_nth2 by lia. rewrite Hlp, Hmod.
    rewrite app_nth1 by exact Hic. reflexivity.
Qed.

Lemma foldlM_from_zero (fuel : nat) (t : PersistentArray A) (init : B) :
  height (root t) < fuel ->
  Std_PersistentArray_foldlM f default_node fuel t init 0
  = Some (fold_left f (toList t) init).
Proof.
  intros Hfuel. unfold Std_PersistentArray_foldlM. cbn [Nat.eqb].
  rewrite foldlMAux_spec by exact Hfuel.
  rewrite Array_foldlMUnsafe_from. unfold toList. rewrite fold_left_app.
  reflexivity.
Qed.

Lemma foldlM_spec (fuel : nat) (t : PersistentArray A) (init : B) (start : nat) :
  well_formed t -> height (root t) < fuel ->
  Std_PersistentArray_foldlM f default_node fuel t init start
  = Some (fold_left f (skipn start (toList t)) init).
Proof.
  intros [h [Hh [Hs [Hr [Ht [Hb Hsz]]]]]] Hfuel.
  destruct (Nat.eq_dec start 0) as [->|Hne].
  { rewrite foldlM_from_zero by exact Hfuel. reflexivity. }
  unfold Std_PersistentArray_foldlM.
  destruct (start =? 0) eqn:E0; [apply Nat.eqb_eq in E0; lia|].
  unfold toList. rewrite skipn_app, fold_left_app, <- Ht.
  destruct (tailOff t <=? start) eqn:Ele.
  - apply Nat.leb_le in Ele. rewrite Array_foldlMUnsafe_from.
    rewrite (skipn_all2 (n := start) (toListNode (root t))) by lia. reflexivity.
  - apply Nat.leb_gt in Ele.
    rewrite lean_usize_of_nat_small by lia.
    rewrite Hs, (foldlFromMAux_spec (h := h)); try assumption; try lia.
    rewrite Array_foldlMUnsafe_from.
    replace (start - tailOff t) with 0 by lia. reflexivity.
Qed.

Lemma get_x21_spec (fuel : nat) (t : PersistentArray A) (i : nat) :
  well_formed t -> height (root t) < fuel ->
  Std_PersistentArray_get_x21 default_node def fuel t i
  = Some (nth i (toList t) def).
Proof.
  intros [h [Hh [Hs [Hr [Ht [Hb Hsz]]]]]] Hfuel.
  unfold Std_PersistentArray_get_x21, toList.
  destruct (tailOff t <=? i) eqn:Ele.
  - apply Nat.leb_le in Ele. rewrite app_nth2 by lia. rewrite <- Ht.
    reflexivity.
  - apply Nat.leb_gt in Ele. rewrite app_nth1 by lia.
    rewrite lean_usize_of_nat_small by lia.
    rewrite Hs. apply getAux_spec; try assumption; lia.
Qed.

End FoldFacts.

Section ShapeFacts.
Variable A : Type.

Lemma radix_height (h : nat) : forall n : PersistentArrayNode A,
  radix h n = true -> height n <= h.
Proof.
  induction h as [|h IH]; intros [cs|vs] Hr; cbn in Hr; try discriminate; cbn;
    [lia|].
  rewrite !andb_true_iff in Hr. destruct Hr as [[_ Hfront] Hlast].
  rewrite forallb_forall in Hfront, Hlast.
  apply le_n_S. apply list_max_le. apply Forall_forall.
  intros k Hk. apply in_map_iff in Hk. destruct Hk as [c [<- Hc]].
  apply IH. rewrite <- (firstn_skipn (length cs - 1) cs) in Hc.
  apply in_app_or in Hc. destruct Hc as [Hc|Hc].
  - apply full_spec, Hfront, Hc.
  - apply Hlast, Hc.
Qed.

Lemma well_formed_height (t : PersistentArray A) :
  well_formed t -> height (root t) <= 12.
Proof.
  intros [h [Hh [_ [Hr _]]]]. apply radix_height in Hr. lia.
Qed.

Lemma forallb_node_toListNode (p : A -> bool) (n : PersistentArrayNode A) :
  forallb_node p n = forallb p (toListNode n).
Proof.
  induction n as [cs IH|vs] using PersistentArrayNode_ind'; cbn; [|reflexivity].
  induction cs as [|c cs IHcs]; cbn; [reflexivity|].
  inversion IH as [|? ? Hc Hrest]; subst.
  rewrite forallb_app, Hc, IHcs by exact Hrest. reflexivity.
Qed.

Lemma forallb_trie_toList (p : A -> bool) (t : PersistentArray A) :
  forallb_trie p t = forallb p (toList t).
Proof.
  unfold forallb_trie, toList. rewrite forallb_app, forallb_node_toListNode.
  reflexivity.
Qed.

End ShapeFacts.

Section TrieProperties.
Variables A B : Type.

(** X14. [mapM] keeps the index order and the shape of the trie: when [f]
    returns on every element, the result holds the images of the elements
    in the same order, with the same [size], [tailOff], [shift] and root
    height, and it is well formed when the argument is. *)
Theorem X14_mapM_index_order (f : A -> option B) (g : A -> B)
    (t : PersistentArray A) :
  (forall x, In x (toList t) -> f x = Some (g x)) ->
  exists t',
    Std_PersistentArray_mapM f t = Some t' /\
    toList t' = map g (toList t) /\
    size t' = size t /\ tailOff t' = tailOff t /\ shift t' = shift t /\
    height (root t') = height (root t) /\
    (well_formed t -> well_formed t').
Proof.
  intros Hf. exists (map_trie g t). split; [apply mapM_total, Hf|].
  split; [apply map_trie_toList|]. repeat split.
  - apply map_node_height.
  - apply map_trie_well_formed.
Qed.

Variable f : B -> A -> B.
Variable default_node : PersistentArrayNode A.
Variable def : A.

(** X15. On any trie, [foldlM] from index 0 returns once the fuel exceeds
    the height of the root, and its result is the left fold over the
    elements in index order. *)
Theorem X15_foldlM_from_zero (fuel : nat) (t : PersistentArray A) (init : B) :
  height (root t) < fuel ->
  Std_PersistentArray_foldlM f default_node fuel t init 0
  = Some (fold_left f (toList t) init).
Proof. apply foldlM_from_zero. Qed.

(** X16. On a well-formed trie [get!] returns with fuel 13 or more: the
    element at index [i], and the default for an index out of range. *)
Theorem X16_get_reads_index (fuel : nat) (t : PersistentArray A) (i : nat) :
  well_formed t -> 12 < fuel ->
  Std_PersistentArray_get_x21 default_node def fuel t i
  = Some (nth i (toList t) def).
Proof.
  intros Hwf Hfuel. apply get_x21_spec; [exact Hwf|].
  pose proof (well_formed_height Hwf). lia.
Qed.

(** X17. On a well-formed trie [foldlM] from index [start] returns with
    fuel 13 or more, and its result is the left fold over the elements
    from [start] on; it is [init] when [start] is past the end. *)
Theorem X17_foldlM_from_index (fuel : nat) (t : PersistentArray A) (init : B)
    (start : nat) :
  well_formed t -> 12 < fuel ->
  Std_PersistentArray_foldlM f default_node fuel t init start
  = Some (fold_left f (skipn start (toList t)) init).
Proof.
  intros Hwf Hfuel. apply foldlM_spec; [exact Hwf|].
  pose proof (well_formed_height Hwf). lia.
Qed.

End TrieProperties.

End TrieFacts.

(* ================================================================== *)
(** * smallestNode? over the trie agrees with smallestNode? over the list *)
(* ================================================================== *)

Section TrieRefinement.
Context `{EI : ExternInhabited} `{EP : Trie.ExternPersistentArray}.
Context {Laws : Trie.PersistentArrayLaws}.

Lemma TrieTree_InfoTree_ind' (P : TrieTree.InfoTree -> Prop) :
  (forall ci t, P t -> P (TrieTree.context ci t)) ->
  (forall i cs, Forall P (Trie.toList cs) -> P (TrieTree.node i cs)) ->
  (forall m, P (TrieTree.hole m)) ->
  forall t, P t.
Proof.
  intros Hc Hn Hh. fix IH 1. intros [ci t|i cs|m].
  - apply Hc, IH.
  - apply Hn. destruct cs as [rt tl sz toff sh]. unfold Trie.toList; cbn.
    apply Forall_app. split.
    + revert rt. fix IHn 1. intros [cs|vs]; cbn.
      * induction cs as [|c cs IHcs]; cbn; [constructor|].
        apply Forall_app. split; [apply IHn|exact IHcs].
      * induction vs as [|v vs IHvs]; constructor; [apply IH|exact IHvs].
    + induction tl as [|v vs IHvs]; constructor; [apply IH|exact IHvs].
  - apply Hh.
Qed.

Lemma flatten_node_toListNode (n : Trie.PersistentArrayNode TrieTree.InfoTree) :
  flatten_node flatten n = map flatten (Trie.toListNode n).
Proof.
  induction n as [cs IH|vs] using TrieFacts.PersistentArrayNode_ind'; cbn;
    [|reflexivity].
  rewrite concat_map, map_map. f_equal.
  apply map_ext_in. intros c Hc. rewrite Forall_forall in IH. apply IH, Hc.
Qed.

Lemma flatten_node_children i cs :
  flatten (TrieTree.node i cs) = node i (map flatten (Trie.toList cs)).
Proof.
  cbn. unfold Trie.toList. rewrite flatten_node_toListNode, map_app. reflexivity.
Qed.

Lemma fold_push (l : list (option TrieTree.InfoTree)) :
  forall acc,
    Trie.well_formed acc ->
    Trie.well_formed
      (fold_left
         TrieTree.Std_PersistentArray_foldlMAux___at_Lean_Elab_InfoTree_smallestNode_x3f___spec__8___lambda__2
         l acc) /\
    Trie.toList
      (fold_left
         TrieTree.Std_PersistentArray_foldlMAux___at_Lean_Elab_InfoTree_smallestNode_x3f___spec__8___lambda__2
         l acc)
    = Trie.toList acc ++ filter (fun x => match x with Some _ => true | None => false end) l.
Proof.
  induction l as [|[r|] l IH]; intros acc Hwf; cbn [fold_left filter].
  - rewrite app_nil_r. split; [exact Hwf|reflexivity].
  - cbn [TrieTree.Std_PersistentArray_foldlMAux___at_Lean_Elab_InfoTree_smallestNode_x3f___spec__8___lambda__2].
    destruct (IH _ (Trie.push_well_formed (Some r) Hwf)) as [Hw Hl].
    split; [exact Hw|]. rewrite Hl, Trie.push_toList, <- app_assoc. reflexivity.
  - apply IH, Hwf.
Qed.

Lemma first_some_map_flatten (l : list (option TrieTree.InfoTree)) :
  first_some (map (option_map flatten) l) = option_map flatten (first_some l).
Proof.
  induction l as [|[r|] l IH]; cbn; [reflexivity|reflexivity|exact IH].
Qed.

Lemma smallestNode_trie_node (fuel : nat) (p : Info -> bool) i cs :
  TrieTree.Lean_Elab_InfoTree_smallestNode_x3f fuel p (TrieTree.node i cs)
  = match Trie.Std_PersistentArray_mapM
            (TrieTree.Lean_Elab_InfoTree_smallestNode_x3f fuel p) cs with
    | None => None
    | Some x_22 =>
        match Trie.Std_PersistentArray_foldlM
                TrieTree.Std_PersistentArray_foldlMAux___at_Lean_Elab_InfoTree_smallestNode_x3f___spec__8___lambda__2
                (Trie.Std_PersistentArray_getAux___rarg___closed__1 _)
                fuel x_22 (Trie.Std_PersistentArray_empty___closed__1 _) 0 with
        | None => None
        | Some x_25 =>
            if Trie.Std_PersistentArray_isEmpty x_25 then
              Some (if p i then Some (TrieTree.node i cs) else None)
            else
              Trie.Std_PersistentArray_get_x21
                (Trie.Std_PersistentArray_getAux___rarg___closed__1 _) None
                fuel x_25 0
        end
    end.
Proof. reflexivity. Qed.

Lemma smallestNode_trie_refines (fuel : nat) (p : Info -> bool) :
  12 < fuel ->
  forall t,
    TrieTree.heights_below fuel t = true ->
    exists r,
      TrieTree.Lean_Elab_InfoTree_smallestNode_x3f fuel p t = Some r /\
      option_map flatten r = Lean_Elab_InfoTree_smallestNode_x3f p (flatten t).
Proof.
  intros Hfuel.
  induction t as [ci t IH|i cs IH|m] using TrieTree_InfoTree_ind'; intros Hb.
  - cbn in Hb. destruct (IH Hb) as [r [Hr Hf]].
    cbn [TrieTree.Lean_Elab_InfoTree_smallestNode_x3f flatten].
    rewrite Hr, smallestNode_context, <- Hf.
    destruct r as [r|]; [exists (Some (TrieTree.context ci r))|exists None];
      split; reflexivity.
  - cbn [TrieTree.heights_below] in Hb. apply andb_prop in Hb.
    destruct Hb as [Hh Hall]. apply Nat.ltb_lt in Hh.
    rewrite TrieFacts.forallb_trie_toList, forallb_forall in Hall.
    rewrite Forall_forall in IH.
    rewrite smallestNode_trie_node.
    set (f := TrieTree.Lean_Elab_InfoTree_smallestNode_x3f fuel p) in *.
    set (g := fun x => match f x with Some y => y | None => None end).
    assert (Hg : forall x, In x (Trie.toList cs) ->
                 f x = Some (g x) /\
                 option_map flatten (g x)
                 = Lean_Elab_InfoTree_smallestNode_x3f p (flatten x)).
    { intros x Hx. destruct (IH x Hx (Hall x Hx)) as [r [Hr Hf]].
      unfold g. rewrite Hr. split; [reflexivity|exact Hf]. }
    rewrite (TrieFacts.mapM_total f g cs) by (intros x Hx; apply Hg, Hx).
    rewrite TrieFacts.foldlM_from_zero
      by (cbn; rewrite TrieFacts.map_node_height; exact Hh).
    rewrite TrieFacts.map_trie_toList.
    destruct (fold_push (map g (Trie.toList cs))
                (Trie.empty_well_formed (option TrieTree.InfoTree))) as [Hw Hl].
    rewrite Trie.empty_toList in Hl. cbn [app] in Hl.
    rewrite (Trie.isEmpty_toList Hw), Hl.
    rewrite flatten_node_children, smallestNode_node, map_map.
    assert (Hmap : map (fun x => Lean_Elab_InfoTree_smallestNode_x3f p (flatten x))
                     (Trie.toList cs)
                   = map (option_map flatten) (map g (Trie.toList cs))).
    { rewrite map_map. apply map_ext_in. intros x Hx. symmetry. apply Hg, Hx. }
    rewrite Hmap, first_some_map_flatten.
    pose proof (filter_some_first_some (map g (Trie.toList cs))) as F.
    destruct (filter _ (map g (Trie.toList cs))) as [|x rest] eqn:EF.
    + rewrite F. cbn [List_isEmpty option_map].
      exists (if p i then Some (TrieTree.node i cs) else None).
      split; [reflexivity|]. destruct (p i); [|reflexivity].
      cbn [option_map]. rewrite flatten_node_children. reflexivity.
    + destruct F as [Hx Hne]. cbn [List_isEmpty].
      rewrite TrieFacts.get_x21_spec;
        [|exact Hw|pose proof (TrieFacts.well_formed_height Hw); lia].
      rewrite Hl. cbn [nth]. exists x. split; [reflexivity|].
      rewrite <- Hx. destruct x as [r|]; [reflexivity|congruence].
  - exists None. split; reflexivity.
Qed.

(** X18. [smallestNode?] as compiled, walking the children of every node
    through the trie with [mapM], [foldlM] and [get!], returns with fuel 13
    or more on a tree whose tries are no higher than the fuel, and its
    answer is the answer of the search over the sequence of children:
    flattening commutes with the search. *)
Theorem X18_smallestNode_trie_agrees (fuel : nat) (p : Info -> bool)
    (t : TrieTree.InfoTree) :
  12 < fuel ->
  TrieTree.heights_below fuel t = true ->
  exists r,
    TrieTree.Lean_Elab_InfoTree_smallestNode_x3f fuel p t = Some r /\
    option_map flatten r = Lean_Elab_InfoTree_smallestNode_x3f p (flatten t).
Proof.
  intros Hfuel Hb. apply smallestNode_trie_refines; assumption.
Qed.

End TrieRefinement.

Module TrieExamples.
Import Model TrieModel.

Lemma model_laws : Trie.PersistentArrayLaws.
Proof.
  constructor.
  - reflexivity.
  - intros A. exists 1. cbn. repeat split; try reflexivity; lia.
  - intros A t x. unfold Trie.toList. cbn. apply app_assoc.
  - intros A t x [h [Hh [Hs [Hr [Ht [Hb Hsz]]]]]]. exists h.
    unfold Trie.toList in *. cbn. rewrite !length_app in *. cbn.
    repeat split; try assumption. lia.
  - intros A t [h [Hh [Hs [Hr [Ht [Hb Hsz]]]]]]. cbn. rewrite Hsz.
    destruct (Trie.toList t); reflexivity.
Qed.

(** X14 on [small_trie] with the successor. *)
Lemma X14_witness :
  exists t',
    Trie.Std_PersistentArray_mapM (fun x => Some (S x)) small_trie = Some t' /\
    Trie.toList t' = map S (Trie.toList small_trie) /\
    Trie.size t' = Trie.size small_trie /\
    Trie.tailOff t' = Trie.tailOff small_trie /\
    Trie.shift t' = Trie.shift small_trie /\
    Trie.height (Trie.root t') = Trie.height (Trie.root small_trie) /\
    (Trie.well_formed small_trie -> Trie.well_formed t').
Proof.
  apply TrieFacts.X14_mapM_index_order. intros x _. reflexivity.
Defined.

(** X15 on [small_trie]: its elements collected with fuel 2. *)
Lemma X15_witness :
  Trie.Std_PersistentArray_foldlM (fun acc x => x :: acc) (Trie.node []) 2
    small_trie [] 0
  = Some (fold_left (fun acc x => x :: acc) (Trie.toList small_trie) []).
Proof.
  apply TrieFacts.X15_foldlM_from_zero. cbn. lia.
Defined.

(** X16 on [deep_trie]: index 1027 lies in the second subtree of the
    root. *)
Lemma X16_witness :
  Trie.Std_PersistentArray_get_x21 (Trie.node []) 0 13 deep_trie 1027
  = Some (nth 1027 (Trie.toList deep_trie) 0).
Proof.
  apply TrieFacts.X16_get_reads_index.
  - exists 2. repeat split; try reflexivity; lia.
  - lia.
Defined.

(** X17 on [deep_trie]: the elements from index 1000 on. *)
Lemma X17_witness :
  Trie.Std_PersistentArray_foldlM (fun acc x => x :: acc) (Trie.node []) 13
    deep_trie [] 1000
  = Some (fold_left (fun acc x => x :: acc)
            (skipn 1000 (Trie.toList deep_trie)) []).
Proof.
  apply TrieFacts.X17_foldlM_from_index.
  - exists 2. repeat split; try reflexivity; lia.
  - lia.
Defined.

(** X18 on [trie_tree] with the stand-in for the imported operations. *)
Lemma X18_witness :
  exists r,
    TrieTree.Lean_Elab_InfoTree_smallestNode_x3f 13 always trie_tree = Some r /\
    option_map flatten r
    = Lean_Elab_InfoTree_smallestNode_x3f always (flatten trie_tree).
Proof.
  apply (X18_smallestNode_trie_agrees (Laws := model_laws)).
  - lia.
  - reflexivity.
Defined.

End TrieExamples.
